(** * Summit photo mapper: the upload / retry / merge pipeline

    A shallow embedding of the three variants of the single-page component
    ([src/ImagePassionMapper.jsx] and the two components of the second
    source file): the retrying HTTP helper [exponentialBackoffFetch], the
    selection handlers [handleFileChange] and [removeFile], and the run
    [analyzeImages].

    JavaScript values are modelled as follows.
    - Numbers that the code only counts with ([attempt], [maxRetries], HTTP
      statuses, indices) are integers in [Z]; the back-off delay, which
      involves [Math.random()], is a binary64 value [Number], each
      operation rounding its exact result to the nearest (ties to even).
    - [null] is the constructor [JNull]; [undefined] is [None] of an
      [option].
    - An [async] function is a computation in the monad [Js]: it threads
      the component state and the record of the effects performed so far,
      and completes either normally or abruptly (a thrown value, i.e. a
      rejected promise).  [await] is sequencing.
    - Everything the program does not control (what [fetch] answers, what
      [Math.random] returns, what the file reader and the EXIF parser
      yield, the result of [JSON.parse]) is read from an environment
      [Env]; theorems quantify over every environment. *)

From Stdlib Require Import ZArith QArith Qround Qpower Lia Lqa DecimalString.
From Stdlib Require Import PrimFloat FloatOps SpecFloat.
From stdpp Require Import base list strings.

Set Warnings "-register-all".
Local Open Scope Z_scope.
Local Open Scope string_scope.

(** ** JavaScript values *)

Inductive Json : Type :=
| JNull
| JBool (b : bool)
| JNum (q : Q)
| JStr (s : string)
| JArr (items : list Json)
| JObj (fields : list (string * Json)).

(** A thrown value: an object, whose [message] is [None] when it has no
    such property (a [ProgressEvent] delivered by [FileReader.onerror], for
    instance). *)
Record JsError : Type := mkError { message : option string }.

Definition Error (msg : string) : JsError := {| message := Some msg |}.
Definition TypeError (msg : string) : JsError := {| message := Some msg |}.

Inductive Completion (A : Type) : Type :=
| Normal (a : A)
| Abrupt (e : JsError).
Arguments Normal {A} a.
Arguments Abrupt {A} e.

(** Truthiness of a value, of an optional property, of a string. *)
Definition truthy (v : Json) : bool :=
  match v with
  | JNull => false
  | JBool b => b
  | JNum q => negb (Qeq_bool q 0)
  | JStr s => negb (String.eqb s "")
  | JArr _ | JObj _ => true
  end.

Definition truthy_opt (o : option Json) : bool :=
  match o with Some v => truthy v | None => false end.

(** [a || b] on optional values, [b] being a defined value. *)
Definition or_else (a : option Json) (b : Json) : Json :=
  match a with
  | Some v => if truthy v then v else b
  | None => b
  end.

(** [a || b] where [b] may itself be [undefined]. *)
Definition or_opt (a b : option Json) : option Json :=
  if truthy_opt a then a else b.

(** [e.message || fallback] for a thrown value [e]. *)
Definition message_or (e : JsError) (fallback : string) : string :=
  match message e with
  | Some m => if String.eqb m "" then fallback else m
  | None => fallback
  end.

Fixpoint assoc (k : string) (fields : list (string * Json)) : option Json :=
  match fields with
  | [] => None
  | (k', v) :: rest => if String.eqb k k' then Some v else assoc k rest
  end.

(** [v.name] for the property names the program reads ([candidates],
    [content], [parts], [text], [error], [message], [details]); none of them
    is defined on the prototypes of arrays, strings, numbers or booleans.
    Reading a property of [null] throws. *)
Definition get_prop (v : Json) (name : string) : Completion (option Json) :=
  match v with
  | JNull => Abrupt (TypeError "Cannot read properties of null")
  | JObj fields => Normal (assoc name fields)
  | _ => Normal None
  end.

(** [v?.name]: short-circuits to [undefined] on [null] and [undefined]. *)
Definition get_prop_opt (v : option Json) (name : string) : option Json :=
  match v with
  | Some (JObj fields) => assoc name fields
  | _ => None
  end.

(** [v?.[0]]. *)
Definition get_first_opt (v : option Json) : option Json :=
  match v with
  | Some (JArr items) => head items
  | Some (JObj fields) => assoc "0" fields
  | Some (JStr (String c _)) => Some (JStr (String c ""))
  | _ => None
  end.

Definition number_to_string (n : Z) : string :=
  NilZero.string_of_int (Z.to_int n).

(** ** Numbers

    A JavaScript number is an IEEE 754 binary64 value: a rational
    [m * 2^e] with [|m| < 2^53] and [e >= -1074], an infinity, or NaN (the
    sign of zero is not kept: nothing here observes it).  An arithmetic
    operation yields its exact result rounded to the nearest such value,
    ties going to the even significand, and an infinity when that value
    would reach [2^1024]. *)

Inductive Number : Type :=
| Finite (q : Q)
| Infinite (negative : bool)
| NaN.

Local Open Scope Q_scope.

(** The integer nearest to [q], the even one of the two when [q] is half
    way. *)
Definition round_half_even (q : Q) : Z :=
  let f := Qfloor q in
  match Qcompare (q - inject_Z f) (1 # 2) with
  | Lt => f
  | Gt => (f + 1)%Z
  | Eq => if Z.even f then f else (f + 1)%Z
  end.

(** The exponent of [x > 0]: the [l] with [2^l <= x < 2^(l+1)]. *)
Definition floor_log2 (x : Q) : Z :=
  let l := (Z.log2 (Qnum x) - Z.log2 (Zpos (Qden x)))%Z in
  if Qle_bool (2 ^ l) x then l else (l - 1)%Z.

(** The exponent of the last place of the binary64 values around [x > 0]:
    53 significant bits, and the subnormal spacing [2^-1074] at the
    bottom. *)
Definition quantum (x : Q) : Z := Z.max (floor_log2 x - 52) (-1074).

Definition round_positive (x : Q) : Q :=
  inject_Z (round_half_even (x / 2 ^ quantum x)) * 2 ^ quantum x.

(** Rounding to 53 significant bits, the exponent being unbounded above. *)
Definition round64 (x : Q) : Q :=
  match Qnum x with
  | Z0 => 0
  | Zpos _ => round_positive x
  | Zneg _ => - round_positive (- x)
  end.

(** The binary64 value of the real number [x]. *)
Definition binary64 (x : Q) : Number :=
  let y := round64 x in
  if Qle_bool (2 ^ 1024) y then Infinite false
  else if Qle_bool y (- 2 ^ 1024) then Infinite true
  else Finite y.

(** [a * b] and [a + b]. *)
Definition Number_mul (a b : Number) : Number :=
  match a, b with
  | Finite x, Finite y => binary64 (x * y)
  | Finite x, Infinite n | Infinite n, Finite x =>
      match Qcompare x 0 with
      | Eq => NaN
      | Gt => Infinite n
      | Lt => Infinite (negb n)
      end
  | Infinite n, Infinite m => Infinite (xorb n m)
  | _, _ => NaN
  end.

Definition Number_add (a b : Number) : Number :=
  match a, b with
  | Finite x, Finite y => binary64 (x + y)
  | Finite _, Infinite n | Infinite n, Finite _ => Infinite n
  | Infinite n, Infinite m => if Bool.eqb n m then Infinite n else NaN
  | _, _ => NaN
  end.

(** [Math.pow(2, exponent)] for an integer [exponent]. *)
Definition Math_pow_2 (exponent : Z) : Number := binary64 (2 ^ exponent).

(** What [Math.random()] may return: a binary64 value in [[0, 1)]. *)
Definition random_value (r : Q) : Prop := round64 r == r /\ 0 <= r /\ r < 1.

(** The rational denoted by a primitive floating-point number of the
    proof assistant (the hardware binary64), when it is finite. *)
Definition Q_of_float (f : float) : option Q :=
  match Prim2SF f with
  | S754_zero _ => Some 0
  | S754_finite negative m e =>
      Some ((if negative then -1 else 1) * inject_Z (Zpos m) * 2 ^ e)
  | _ => None
  end.

(** [f] is the finite number [n]. *)
Definition same_number (f : float) (n : Number) : bool :=
  match Q_of_float f, n with
  | Some x, Finite y => Qeq_bool x y
  | _, _ => false
  end.

Local Close Scope Q_scope.

(** ** Files, responses, requests *)

Record File : Type := mkFile {
  name : string;
  type : string;
  lastModified : Z
}.

Record Response : Type := mkResponse {
  ok : bool;
  status : Z;
  statusText : string;
  json : Completion Json          (* how [response.json()] settles *)
}.

Inductive FetchOutcome : Type :=
| Resolved (response : Response)
| Rejected (reason : JsError).

(** The [base64Data] of an item: the encoded bytes of the file,
    [undefined] (what [toBase64] resolves with when the reader's result
    holds no comma), or [null] (what the [catch] of preprocessing stores). *)
Inductive Base64Data : Type :=
| Encoded (b : string)
| Undefined
| Null.

(** The value [toBase64] resolved with, as stored in an item. *)
Definition resolved (base64 : option string) : Base64Data :=
  match base64 with
  | Some b => Encoded b
  | None => Undefined
  end.

(** The request payload built by [analyzeImages]; the body of the request
    is its serialisation, which is kept structured here. *)
Record Payload : Type := mkPayload {
  text : string;                  (* contents[0].parts[0].text *)
  mimeType : string;              (* ...parts[1].inlineData.mimeType *)
  inlineData : Base64Data         (* ...parts[1].inlineData.data *)
}.

Record RequestInit : Type := mkRequest {
  method : string;
  headers : list (string * string);
  body : Payload
}.

(** EXIF tags: the [description] of each tag the program looks at, [None]
    when the tag (or its description) is missing. *)
Record Tags : Type := mkTags {
  DateTimeOriginal : option Json;
  Model : option Json;
  GPSLatitude : option Json;
  GPSLongitude : option Json
}.

Definition no_tags : Tags :=
  {| DateTimeOriginal := None; Model := None; GPSLatitude := None; GPSLongitude := None |}.

Record Metadata : Type := mkMetadata {
  date : option Json;
  camera : option Json;
  location : option (Json * Json)
}.

Record PreprocessedItem : Type := mkPre {
  pf_file : File;
  base64Data : Base64Data;
  pf_metadata : option Metadata;
  metadataContext : option string;
  pf_error : option string        (* [None] is [null] *)
}.

Record ResultItem : Type := mkResult {
  file : File;
  data : Json;                    (* [JNull] is [null] *)
  error : Json;                   (* [JNull] is [null] *)
  processing : bool;
  metadata : option Metadata
}.

(** ** The component state, the environment, the effect monad *)

Record AppState : Type := mkApp {
  selectedFiles : list File;
  results : list ResultItem;
  loading : bool;
  app_error : option string       (* the [error] state variable *)
}.

Inductive Event : Type :=
| EvFetch (url : string) (options : RequestInit)
| EvSleep (ms : Number)                      (* [setTimeout(resolve, ms)] awaited *)
| EvRead (f : File)                       (* [toBase64(f)] started *)
| EvExif (f : File)                       (* [ExifReader.load(f)] started *)
| EvSetResults (published : list ResultItem)
| EvSetError (msg : option string)
| EvSetLoading (b : bool).

Record Env : Type := mkEnv {
  fetch_reply : nat -> FetchOutcome;      (* settlement of the k-th [fetch] *)
  Math_random : nat -> Q;                 (* value of the k-th [Math.random()] *)
  FileReader_result : nat -> Completion string;
    (* k-th [readAsDataURL]: [reader.result] on load, or the error event *)
  ExifReader_load : nat -> Completion Tags;    (* k-th EXIF load *)
  JSON_parse : Json -> Completion Json;
  toFixed6 : Q -> string;                      (* [x.toFixed(6)] for a number [x] *)
  template_string : Json -> string;            (* [`${v}`] *)
  toLocaleDateString : Z -> string;            (* [new Date(ms).toLocaleDateString()] *)
  VITE_GEMINI_API_KEY : option string;         (* [import.meta.env.VITE_GEMINI_API_KEY] *)
  PROMPT_TEMPLATE : list string -> option string -> string;
  ITINERARY_ITEMS : list string                (* [ALL_PASSIONS] / [SUMMIT_ITINERARY_ITEMS] *)
}.

Record Sys : Type := mkSys {
  app : AppState;
  fetches : nat;                  (* calls of [fetch] so far *)
  randoms : nat;                  (* calls of [Math.random] so far *)
  reads : nat;                    (* calls of [toBase64] so far *)
  exifs : nat;                    (* calls of [ExifReader.load] so far *)
  trace : list Event              (* effects so far, oldest first *)
}.

Definition Js (A : Type) : Type := Env -> Sys -> Completion A * Sys.

Definition ret {A} (a : A) : Js A := fun _ s => (Normal a, s).

Definition throw {A} (e : JsError) : Js A := fun _ s => (Abrupt e, s).

Definition bind {A B} (m : Js A) (k : A -> Js B) : Js B :=
  fun env s =>
    match m env s with
    | (Normal a, s') => k a env s'
    | (Abrupt e, s') => (Abrupt e, s')
    end.

(** [try { m } catch (e) { handler e }]: effects performed before the throw
    stay performed. *)
Definition try_catch {A} (m : Js A) (handler : JsError -> Js A) : Js A :=
  fun env s =>
    match m env s with
    | (Normal a, s') => (Normal a, s')
    | (Abrupt e, s') => handler e env s'
    end.

Definition lift {A} (c : Completion A) : Js A := fun _ s => (c, s).

Declare Scope js_scope.
Delimit Scope js_scope with js.
Notation "x <- m ;; k" := (bind m (fun x => k))
  (at level 100, m at next level, right associativity) : js_scope.
Notation "m ;;; k" := (bind m (fun _ => k))
  (at level 100, right associativity) : js_scope.
Local Open Scope js_scope.

Definition ask {A} (field : Env -> A) : Js A := fun env s => (Normal (field env), s).

Definition emit (ev : Event) : Js unit :=
  fun _ s => (Normal tt,
              {| app := app s; fetches := fetches s; randoms := randoms s;
                 reads := reads s; exifs := exifs s; trace := (trace s ++ [ev])%list |}).

Definition with_app (f : AppState -> AppState) : Js unit :=
  fun _ s => (Normal tt,
              {| app := f (app s); fetches := fetches s; randoms := randoms s;
                 reads := reads s; exifs := exifs s; trace := trace s |}).

Definition get_app : Js AppState := fun _ s => (Normal (app s), s).

(** ** Platform operations *)

Definition fetch (url : string) (options : RequestInit) : Js Response :=
  fun env s =>
    let s' := {| app := app s; fetches := S (fetches s); randoms := randoms s;
                 reads := reads s; exifs := exifs s;
                 trace := (trace s ++ [EvFetch url options])%list |} in
    match fetch_reply env (fetches s) with
    | Resolved response => (Normal response, s')
    | Rejected reason => (Abrupt reason, s')
    end.

Definition random : Js Q :=
  fun env s =>
    (Normal (Math_random env (randoms s)),
     {| app := app s; fetches := fetches s; randoms := S (randoms s);
        reads := reads s; exifs := exifs s; trace := trace s |}).

(** [await new Promise(resolve => setTimeout(resolve, delay))]. *)
Definition sleep (delay : Number) : Js unit := emit (EvSleep delay).

(** ** exponentialBackoffFetch *)

(** [Math.pow(2, attempt) * 1000 + Math.random() * 500] with [r] the value
    of [Math.random()]: two products and a sum, each of them rounded. *)
Definition backoff_delay (attempt : Z) (r : Q) : Number :=
  Number_add (Number_mul (Math_pow_2 attempt) (Finite 1000))
             (Number_mul (Finite r) (Finite 500)).

Definition status_error (response : Response) : JsError :=
  Error ("API call failed with status: " ++ number_to_string (status response)
         ++ " " ++ statusText response).

(** What one iteration of the loop decides. *)
Inductive Iteration : Type :=
| Return (response : Response)
| Continue.

(** The body of the [for] loop, for the current value of [attempt]. *)
Definition attempt_body (url : string) (options : RequestInit)
    (attempt maxRetries : Z) : Js Iteration :=
  try_catch
    (response <- fetch url options ;;
     if ok response then ret (Return response)
     else if ((status response =? 429) && (attempt <? maxRetries - 1))%Z then
       r <- random ;;
       sleep (backoff_delay attempt r) ;;;
       ret Continue
     else throw (status_error response))
    (fun error =>
       if (attempt =? maxRetries - 1)%Z then throw error
       else
         r <- random ;;
         sleep (backoff_delay attempt r) ;;;
         ret Continue).

(** [for (let attempt = ...; attempt < maxRetries; attempt++)], by recursion
    on the number [remaining] of values of [attempt] still below
    [maxRetries].  Falling off the end of the loop returns [undefined]. *)
Fixpoint attempts_from (remaining : nat) (url : string) (options : RequestInit)
    (attempt maxRetries : Z) : Js (option Response) :=
  match remaining with
  | O => ret None
  | S remaining' =>
      it <- attempt_body url options attempt maxRetries ;;
      match it with
      | Return response => ret (Some response)
      | Continue => attempts_from remaining' url options (attempt + 1) maxRetries
      end
  end.

Definition exponentialBackoffFetch (url : string) (options : RequestInit)
    (maxRetries : Z) : Js (option Response) :=
  attempts_from (Z.to_nat maxRetries) url options 0 maxRetries.

Definition default_maxRetries : Z := 3.

(** ** State setters

    A [setX] call replaces the state variable; the calls whose order the
    properties below are about are also recorded in the trace. *)

Definition setError (msg : option string) : Js unit :=
  with_app (fun a => {| selectedFiles := selectedFiles a; results := results a;
                        loading := loading a; app_error := msg |}) ;;;
  emit (EvSetError msg).

Definition setLoading (b : bool) : Js unit :=
  with_app (fun a => {| selectedFiles := selectedFiles a; results := results a;
                        loading := b; app_error := app_error a |}) ;;;
  emit (EvSetLoading b).

Definition setResults (l : list ResultItem) : Js unit :=
  with_app (fun a => {| selectedFiles := selectedFiles a; results := l;
                        loading := loading a; app_error := app_error a |}) ;;;
  emit (EvSetResults l).

(** [setSelectedFiles(prev => ...)]: the updater receives the current
    selection and may itself call setters. *)
Definition setSelectedFiles (updater : list File -> Js (list File)) : Js unit :=
  st <- get_app ;;
  updated <- updater (selectedFiles st) ;;
  with_app (fun a => {| selectedFiles := updated; results := results a;
                        loading := loading a; app_error := app_error a |}).

(** ** Selection handlers *)

Definition MAX_FILES : Z := 25.

Definition limit_message : string :=
  "Maximum of " ++ number_to_string MAX_FILES
  ++ " photos allowed. Please select fewer files.".

(** [file.type.startsWith('image/')]. *)
Definition is_image (f : File) : bool := String.prefix "image/" (type f).

(** [event.target.files] is [files].  [selectedFiles] in the guard is the
    value of the state variable the handler was rendered with, which is
    the state the handler starts from. *)
Definition handleFileChange (files : list File) : Js unit :=
  st <- get_app ;;
  setError None ;;;
  let newFiles := List.filter is_image files in
  if (Z.of_nat (length (selectedFiles st)) + Z.of_nat (length newFiles) >? MAX_FILES)%Z
  then setError (Some limit_message)
  else
    setSelectedFiles (fun prev =>
      let updated := take (Z.to_nat MAX_FILES) (prev ++ newFiles)%list in
      (if negb (length prev =? length updated)%nat then setResults [] else ret tt) ;;;
      ret updated).

(** [l.filter((_, i) => keep i)], the first element of [l] having index
    [from]. *)
Fixpoint filter_index {A} (keep : Z -> bool) (from : Z) (l : list A) : list A :=
  match l with
  | [] => []
  | x :: rest =>
      if keep from then x :: filter_index keep (from + 1) rest
      else filter_index keep (from + 1) rest
  end.

Definition removeFile (indexToRemove : Z) : Js unit :=
  st <- get_app ;;
  if loading st then ret tt
  else
    setSelectedFiles (fun prev =>
      let updatedFiles := filter_index (fun i => negb (i =? indexToRemove)%Z) 0 prev in
      setResults [] ;;;
      ret updatedFiles).

(** ** The three variants *)

Inductive Variant : Type :=
| PassionMapper        (* src/ImagePassionMapper.jsx: EXIF, credential check *)
| SummitMatcher        (* second file, first component: lastModified, no check *)
| ExperienceMatcher.   (* second file, second component: no metadata, no check *)

Definition API_MODEL : string := "gemini-2.5-flash-preview-09-2025".

Definition API_URL : string :=
  "https://generativelanguage.googleapis.com/v1beta/models/" ++ API_MODEL
  ++ ":generateContent?key=".

(** The credential a variant runs with: [VITE_GEMINI_API_KEY || ''] in the
    first, the constant [apiKey = ""] in the other two. *)
Definition credential (v : Variant) (env : Env) : string :=
  match v with
  | PassionMapper =>
      match VITE_GEMINI_API_KEY env with
      | Some k => k
      | None => ""
      end
  | SummitMatcher | ExperienceMatcher => ""
  end.

(** Which variants test the credential before a run. *)
Definition checks_credential (v : Variant) : bool :=
  match v with
  | PassionMapper => true
  | SummitMatcher | ExperienceMatcher => false
  end.

Definition key_missing_message : string :=
  "API Key Missing! Please set the VITE_GEMINI_API_KEY environment variable.".

(** ** Preprocessing *)

(** [s.split(sep)] for a one-character separator. *)
Fixpoint split_on (sep : Ascii.ascii) (s : string) : list string :=
  match s with
  | EmptyString => [EmptyString]
  | String c rest =>
      if Ascii.eqb c sep then EmptyString :: split_on sep rest
      else match split_on sep rest with
           | p :: ps => String c p :: ps
           | [] => [String c EmptyString]
           end
  end.

Definition comma : Ascii.ascii := Ascii.ascii_of_nat 44.

(** [reader.result.split(',')[1]]: what [toBase64] resolves with for the
    data URL [result]; [None] is [undefined]. *)
Definition dataUrl_payload (result : string) : option string :=
  split_on comma result !! 1%nat.

Fixpoint has_char (c : Ascii.ascii) (s : string) : bool :=
  match s with
  | EmptyString => false
  | String c' rest => Ascii.eqb c' c || has_char c rest
  end.

(** [toBase64(file)]: the promise is rejected with the event of
    [reader.onerror], or resolved on [reader.onload] with
    [reader.result.split(',')[1]], which is [undefined] when the result
    holds no comma. *)
Definition toBase64 (f : File) : Js (option string) :=
  fun env s =>
    (match FileReader_result env (reads s) with
     | Normal result => Normal (dataUrl_payload result)
     | Abrupt error => Abrupt error
     end,
     {| app := app s; fetches := fetches s; randoms := randoms s;
        reads := S (reads s); exifs := exifs s; trace := (trace s ++ [EvRead f])%list |}).

Definition ExifReader_load_file (f : File) : Js Tags :=
  fun env s =>
    (ExifReader_load env (exifs s),
     {| app := app s; fetches := fetches s; randoms := randoms s;
        reads := reads s; exifs := S (exifs s); trace := (trace s ++ [EvExif f])%list |}).

(** Runs [m] and hands its settlement over as a value: a promise that has
    been created and is awaited later.  In the first variant both promises
    of [Promise.all([toBase64(file), ExifReader.load(file).catch(...)])] are
    created before either is awaited, and a rejection of the EXIF load is
    replaced by the empty tag object. *)
Definition settled {A} (m : Js A) : Js (Completion A) :=
  fun env s => let (c, s') := m env s in (Normal c, s').

(** [`${v}`]. *)
Definition template (env : Env) (v : Json) : string :=
  match v with
  | JStr s => s
  | _ => template_string env v
  end.

(** [v.toFixed(6)]: a [TypeError] unless [v] is a number. *)
Definition toFixed (env : Env) (v : Json) : Completion string :=
  match v with
  | JNum x => Normal (toFixed6 env x)
  | _ => Abrupt (TypeError "toFixed is not a function")
  end.

Definition preprocessing_failed (f : File) (preprocessingError : JsError)
  : PreprocessedItem :=
  {| pf_file := f; base64Data := Null; pf_metadata := None; metadataContext := None;
     pf_error := Some (message_or preprocessingError "Failed to read file") |}.

(** The body of the [try] of the first variant, after both promises of the
    inner [Promise.all] have been created. *)
Definition exif_metadata (env : Env) (f : File) (base64 : option string) (tags : Tags)
  : Completion PreprocessedItem :=
  let date := DateTimeOriginal tags in
  let camera := Model tags in
  let parts1 :=
    if truthy_opt date then ["Date taken: " ++ from_option (template env) "" date] else [] in
  let parts2 :=
    if truthy_opt camera
    then (parts1 ++ ["Camera: " +:+ from_option (template env) "" camera])%list else parts1 in
  match GPSLatitude tags, GPSLongitude tags with
  | Some lat, Some lng =>
      match toFixed env lat with
      | Abrupt e => Abrupt e
      | Normal slat =>
          match toFixed env lng with
          | Abrupt e => Abrupt e
          | Normal slng =>
              let parts3 := (parts2 ++ ["Location: (" +:+ slat +:+ ", " +:+ slng +:+ ")"])%list in
              Normal {| pf_file := f; base64Data := resolved base64;
                        pf_metadata :=
                          Some {| date := if truthy_opt date then date else None;
                                  camera := if truthy_opt camera then camera else None;
                                  location := Some (lat, lng) |};
                        metadataContext :=
                          Some ("Use the following metadata to improve the analysis: "
                                ++ String.concat "; " parts3);
                        pf_error := None |}
          end
      end
  | _, _ =>
      Normal {| pf_file := f; base64Data := resolved base64;
                pf_metadata :=
                  Some {| date := if truthy_opt date then date else None;
                          camera := if truthy_opt camera then camera else None;
                          location := None |};
                metadataContext :=
                  Some (if (0 <? length parts2)%nat
                        then "Use the following metadata to improve the analysis: "
                             ++ String.concat "; " parts2
                        else "No additional metadata available.");
                pf_error := None |}
  end.

(** The callback mapped over [selectedFiles]. *)
Definition preprocess (v : Variant) (f : File) : Js PreprocessedItem :=
  try_catch
    (match v with
     | PassionMapper =>
         read <- settled (toBase64 f) ;;
         tags <- try_catch (ExifReader_load_file f) (fun _ => ret no_tags) ;;
         base64 <- lift read ;;
         env <- ask id ;;
         lift (exif_metadata env f base64 tags)
     | SummitMatcher =>
         base64 <- toBase64 f ;;
         env <- ask id ;;
         if negb (lastModified f =? 0)%Z then
           let dateStr := toLocaleDateString env (lastModified f) in
           ret {| pf_file := f; base64Data := resolved base64;
                  pf_metadata := Some {| date := Some (JStr dateStr); camera := None;
                                         location := None |};
                  metadataContext := Some ("Date taken/modified: " ++ dateStr);
                  pf_error := None |}
         else
           ret {| pf_file := f; base64Data := resolved base64;
                  pf_metadata := Some {| date := None; camera := None; location := None |};
                  metadataContext := Some "No additional metadata available.";
                  pf_error := None |}
     | ExperienceMatcher =>
         base64 <- toBase64 f ;;
         ret {| pf_file := f; base64Data := resolved base64;
                pf_metadata := Some {| date := None; camera := None; location := None |};
                metadataContext := Some "";
                pf_error := None |}
     end)
    (fun preprocessingError => ret (preprocessing_failed f preprocessingError)).

(** [await Promise.all(files.map(async (file) => ...))]: the callbacks are
    started in the order of the files and none of them rejects, so the
    outcome is the list of their results in that order. *)
Fixpoint preprocess_all (v : Variant) (files : list File) : Js (list PreprocessedItem) :=
  match files with
  | [] => ret []
  | f :: rest =>
      pf <- preprocess v f ;;
      pfs <- preprocess_all v rest ;;
      ret (pf :: pfs)
  end.

(** ** The inference loop *)

(** [pf.error] as a condition. *)
Definition has_error (pf : PreprocessedItem) : bool :=
  match pf_error pf with
  | Some m => negb (String.eqb m "")
  | None => false
  end.

Definition initial_result (pf : PreprocessedItem) : ResultItem :=
  {| file := pf_file pf;
     data := JNull;
     error := match pf_error pf with Some m => JStr m | None => JNull end;
     processing := negb (has_error pf);
     metadata := pf_metadata pf |}.

(** [{ ...r, data, error, processing: false }]. *)
Definition settle_item (d e : Json) (r : ResultItem) : ResultItem :=
  {| file := file r; data := d; error := e; processing := false;
     metadata := metadata r |}.

Definition empty_message : string := "Model response was empty or malformed.".

(** The request built for an item: the rendered prompt, the MIME type of
    the file and its encoded bytes. *)
Definition build_payload (env : Env) (pf : PreprocessedItem) : Payload :=
  {| text := PROMPT_TEMPLATE env (ITINERARY_ITEMS env) (metadataContext pf);
     mimeType := type (pf_file pf);
     inlineData := base64Data pf |}.

Definition request_for (env : Env) (pf : PreprocessedItem) : RequestInit :=
  {| method := "POST";
     headers := [("Content-Type", "application/json")];
     body := build_payload env pf |}.

(** [apiResult.error?.message || apiResult.error?.details?.[0]?.message
    || "Model response was empty or malformed."], [err] being
    [apiResult.error]. *)
Definition error_message_of (err : option Json) : Json :=
  or_else (or_opt (get_prop_opt err "message")
                  (get_prop_opt (get_first_opt (get_prop_opt err "details")) "message"))
          (JStr empty_message).

(** The [try] block of one iteration: the new value of [currentResults].
    [currentResults[i] = { ...currentResults[i], ... }] is [alter] at [i];
    [currentResults] has one entry per preprocessed item, so [i] is always
    an index of it (see [inference_loop_run]). *)
Definition infer_item (url : string) (pf : PreprocessedItem) (i : nat)
    (currentResults : list ResultItem) : Js (list ResultItem) :=
  env <- ask id ;;
  response <- exponentialBackoffFetch url (request_for env pf) default_maxRetries ;;
  apiResult <- match response with
               | Some r => lift (json r)
               | None => throw (TypeError "Cannot read properties of undefined")
               end ;;
  candidates <- lift (get_prop apiResult "candidates") ;;
  let candidate := get_first_opt candidates in
  let jsonText :=
    get_prop_opt (get_first_opt (get_prop_opt (get_prop_opt candidate "content") "parts"))
                 "text" in
  if truthy_opt jsonText then
    parsedJson <- lift (JSON_parse env (default JNull jsonText)) ;;
    ret (alter (settle_item parsedJson JNull) i currentResults)
  else
    err <- lift (get_prop apiResult "error") ;;
    ret (alter (settle_item JNull (error_message_of err)) i currentResults).

(** One iteration for an item without preprocessing error: [try], [catch],
    then the publication of a copy of [currentResults]. *)
Definition infer_and_publish (url : string) (pf : PreprocessedItem) (i : nat)
    (currentResults : list ResultItem) : Js (list ResultItem) :=
  currentResults' <-
    try_catch (infer_item url pf i currentResults)
      (fun fileError =>
         ret (alter (settle_item JNull (JStr (message_or fileError "File processing failed")))
                    i currentResults)) ;;
  setResults currentResults' ;;;
  ret currentResults'.

(** [for (let i = ...; i < processedFilesData.length; i++)]: [pending] are
    the items from index [i] on. *)
Fixpoint inference_loop (url : string) (pending : list PreprocessedItem) (i : nat)
    (currentResults : list ResultItem) : Js (list ResultItem) :=
  match pending with
  | [] => ret currentResults
  | pf :: rest =>
      if has_error pf then inference_loop url rest (S i) currentResults
      else
        currentResults' <- infer_and_publish url pf i currentResults ;;
        inference_loop url rest (S i) currentResults'
  end.

(** ** analyzeImages *)

(** The part of [analyzeImages] after the pre-run checks. *)
Definition run_analysis (v : Variant) (files : list File) : Js unit :=
  setLoading true ;;;
  setError None ;;;
  processedFilesData <- preprocess_all v files ;;
  let initialResults := map initial_result processedFilesData in
  setResults initialResults ;;;
  env <- ask id ;;
  let apiUrlWithKey := API_URL ++ credential v env in
  _ <- inference_loop apiUrlWithKey processedFilesData 0 initialResults ;;
  setLoading false.

Definition analyzeImages (v : Variant) : Js unit :=
  st <- get_app ;;
  if (length (selectedFiles st) =? 0)%nat || loading st then ret tt
  else
    env <- ask id ;;
    if checks_credential v && String.eqb (credential v env) "" then
      setError (Some key_missing_message)
    else run_analysis v (selectedFiles st).

(** What the render shows about the credential (first variant): the
    analysis button is disabled and a banner is displayed. *)
Definition isButtonDisabled (v : Variant) (env : Env) (st : AppState) : bool :=
  loading st || (length (selectedFiles st) =? 0)%nat
  || (checks_credential v && String.eqb (credential v env) "").

Definition key_banner_shown (v : Variant) (env : Env) : bool :=
  checks_credential v && String.eqb (credential v env) "".

(** [{error && <div ...>{error}</div>}]: the text of the error box the
    render shows, if it shows one. *)
Definition error_box (st : AppState) : option string :=
  match app_error st with
  | Some msg => if String.eqb msg "" then None else Some msg
  | None => None
  end.

(** ** Reading a run *)

(** A fresh system around a component state: nothing performed yet. *)
Definition start (a : AppState) : Sys :=
  {| app := a; fetches := 0; randoms := 0; reads := 0; exifs := 0; trace := [] |}.

(** The effects performed between two states of one execution. *)
Definition events_since (s s' : Sys) : list Event :=
  drop (length (trace s)) (trace s').

(** The delays slept, in order. *)
Fixpoint sleeps (t : list Event) : list Number :=
  match t with
  | [] => []
  | EvSleep d :: rest => d :: sleeps rest
  | _ :: rest => sleeps rest
  end.

(** The result lists published by [setResults], in order. *)
Fixpoint published (t : list Event) : list (list ResultItem) :=
  match t with
  | [] => []
  | EvSetResults l :: rest => l :: published rest
  | _ :: rest => published rest
  end.

(** The payloads sent, in order. *)
Fixpoint sent (t : list Event) : list Payload :=
  match t with
  | [] => []
  | EvFetch _ options :: rest => body options :: sent rest
  | _ :: rest => sent rest
  end.

(** The files handed to the file reader, in order. *)
Fixpoint files_read (t : list Event) : list File :=
  match t with
  | [] => []
  | EvRead f :: rest => f :: files_read rest
  | _ :: rest => files_read rest
  end.

(** The events of one call of [exponentialBackoffFetch] that slept [ds]
    between its attempts. *)
Definition call_events (url : string) (options : RequestInit) (ds : list Number) : list Event :=
  (flat_map (fun d => [EvFetch url options; EvSleep d]) ds ++ [EvFetch url options])%list.

(** The part of the delay that does not depend on [Math.random()], as a
    real number: [2^attempt * 1000]. *)
Definition backoff_base (attempt : Z) : Q := (inject_Z (2 ^ attempt) * 1000)%Q.

(** The error carried by a failed attempt. *)
Definition failure_of (o : FetchOutcome) : option JsError :=
  match o with
  | Resolved r => if ok r then None else Some (status_error r)
  | Rejected e => Some e
  end.

Definition is_429 (o : FetchOutcome) : bool :=
  match o with
  | Resolved r => negb (ok r) && (status r =? 429)%Z
  | Rejected _ => false
  end.

Definition is_rejection (o : FetchOutcome) : bool :=
  match o with Rejected _ => true | Resolved _ => false end.

(** Terminal items and the two terminal shapes. *)
Definition terminal (r : ResultItem) : bool := negb (processing r).

Definition count_terminal (l : list ResultItem) : nat :=
  length (List.filter terminal l).

Definition data_set (r : ResultItem) : Prop := data r <> JNull.
Definition error_set (r : ResultItem) : Prop := truthy (error r) = true.

(** ** Sample environments *)

Definition network_error : JsError := TypeError "Failed to fetch".

Definition respond (st : Z) (txt : string) (b : Completion Json) : Response :=
  {| ok := (200 <=? st)%Z && (st <=? 299)%Z; status := st; statusText := txt; json := b |}.

Definition response_429 : Response := respond 429 "Too Many Requests" (Normal JNull).
Definition response_500 : Response := respond 500 "Internal Server Error" (Normal JNull).

(** A success body whose candidate text is [t]. *)
Definition candidate_body (t : Json) : Json :=
  JObj [("candidates",
         JArr [JObj [("content", JObj [("parts", JArr [JObj [("text", t)]])])]])].

(** A success body with two candidates, of texts [t1] and [t2]. *)
Definition two_candidates_body (t1 t2 : Json) : Json :=
  JObj [("candidates",
         JArr [JObj [("content", JObj [("parts", JArr [JObj [("text", t1)]])])];
               JObj [("content", JObj [("parts", JArr [JObj [("text", t2)]])])]])].

Definition response_200 (t : Json) : Response :=
  respond 200 "OK" (Normal (candidate_body t)).

(** [JSON.parse] on the few texts the samples use; any other text is
    reported as a syntax error. *)
Definition sample_parse (v : Json) : Completion Json :=
  match v with
  | JStr "null" => Normal JNull
  | JStr "{}" => Normal (JObj [])
  | _ => Abrupt (Error "Unexpected token")
  end.

(** An environment answering the successive [fetch] calls with [replies]
    (a network failure once they are used up), reading every file
    successfully except the positions in [unreadable]. *)
Definition sample_env (key : option string) (replies : list FetchOutcome)
    (unreadable : list nat) : Env :=
  {| fetch_reply := fun k => default (Rejected network_error) (replies !! k);
     Math_random := fun _ => (1 # 4)%Q;
     FileReader_result := fun k =>
       if bool_decide (k ∈ unreadable) then Abrupt {| message := None |}
       else Normal "data:image/png;base64,aGVsbG8=";
     ExifReader_load := fun _ => Normal no_tags;
     JSON_parse := sample_parse;
     toFixed6 := fun _ => "0.000000";
     template_string := fun _ => "";
     toLocaleDateString := fun _ => "1/1/2024";
     VITE_GEMINI_API_KEY := key;
     PROMPT_TEMPLATE := fun _ _ => "Analyze the provided image.";
     ITINERARY_ITEMS := ["Keynote Talks"; "DJ Sets"] |}.

(** [env] with [Math.random()] always returning [r]. *)
Definition with_random (r : Q) (env : Env) : Env :=
  {| fetch_reply := fetch_reply env;
     Math_random := fun _ => r;
     FileReader_result := FileReader_result env;
     ExifReader_load := ExifReader_load env;
     JSON_parse := JSON_parse env;
     toFixed6 := toFixed6 env;
     template_string := template_string env;
     toLocaleDateString := toLocaleDateString env;
     VITE_GEMINI_API_KEY := VITE_GEMINI_API_KEY env;
     PROMPT_TEMPLATE := PROMPT_TEMPLATE env;
     ITINERARY_ITEMS := ITINERARY_ITEMS env |}.

(** [env] with the file reader settling every read with [c]. *)
Definition with_reader (c : Completion string) (env : Env) : Env :=
  {| fetch_reply := fetch_reply env;
     Math_random := Math_random env;
     FileReader_result := fun _ => c;
     ExifReader_load := ExifReader_load env;
     JSON_parse := JSON_parse env;
     toFixed6 := toFixed6 env;
     template_string := template_string env;
     toLocaleDateString := toLocaleDateString env;
     VITE_GEMINI_API_KEY := VITE_GEMINI_API_KEY env;
     PROMPT_TEMPLATE := PROMPT_TEMPLATE env;
     ITINERARY_ITEMS := ITINERARY_ITEMS env |}.

Definition sample_request : RequestInit :=
  {| method := "POST"; headers := [("Content-Type", "application/json")];
     body := {| text := "Analyze the provided image."; mimeType := "image/png";
                inlineData := Encoded "aGVsbG8=" |} |}.

Definition photo (n : string) : File :=
  {| name := n; type := "image/png"; lastModified := 1700000000000 |}.

Definition idle (files : list File) : AppState :=
  {| selectedFiles := files; results := []; loading := false; app_error := None |}.

(** The system after a call of [fetch], and after the pause that precedes
    a retry ([Math.random()] then the timer). *)
Definition after_fetch (url : string) (options : RequestInit) (s : Sys) : Sys :=
  {| app := app s; fetches := S (fetches s); randoms := randoms s;
     reads := reads s; exifs := exifs s;
     trace := (trace s ++ [EvFetch url options])%list |}.

Definition after_backoff (attempt : Z) (env : Env) (s : Sys) : Sys :=
  {| app := app s; fetches := fetches s; randoms := S (randoms s);
     reads := reads s; exifs := exifs s;
     trace := (trace s ++ [EvSleep (backoff_delay attempt (Math_random env (randoms s)))])%list |}.

(** ** Vocabulary of the run properties *)

(** The component state with its results replaced. *)
Definition with_results (a : AppState) (l : list ResultItem) : AppState :=
  {| selectedFiles := selectedFiles a; results := l; loading := loading a;
     app_error := app_error a |}.

(** [candidates?.[0]?.content?.parts?.[0]?.text]: the text of the first
    part of the first candidate, [candidates] being the [candidates]
    property of a body; [None] when a link of the chain is missing. *)
Definition candidate_text (candidates : option Json) : option Json :=
  get_prop_opt
    (get_first_opt (get_prop_opt (get_prop_opt (get_first_opt candidates) "content") "parts"))
    "text".

(** The answer to request number [k] (the [k]-th call of [fetch]) is an ok
    response whose body holds the truthy value [jsonText] as
    [candidates[0].content.parts[0].text]. *)
Definition answered_with (env : Env) (k : nat) (jsonText : Json) : Prop :=
  exists r body candidates,
    fetch_reply env k = Resolved r /\ ok r = true
    /\ json r = Normal body
    /\ get_prop body "candidates" = Normal candidates
    /\ candidate_text candidates = Some jsonText
    /\ truthy jsonText = true.

(** The two shapes an item takes when its inference call has resolved,
    [k] being the number of the last request sent for it: an error message
    with no data, or no error and the value [JSON.parse] returned for the
    text of the first candidate of the answer to that request. *)
Definition terminal_shape (env : Env) (k : nat) (d e : Json) : Prop :=
  (d = JNull /\ truthy e = true)
  \/ (e = JNull
      /\ exists jsonText,
           answered_with env k jsonText /\ JSON_parse env jsonText = Normal d).

(** The number of the last request sent for item [k], the requests being
    numbered from [first] on and item [j] being sent [counts !! j] times. *)
Definition last_request (first : nat) (counts : list nat) (k : nat) : nat :=
  pred (first + sum_list (take (S k) counts)).

(** [a'] is [a] with its results replaced by [l]. *)
Definition results_replaced (a a' : AppState) (l : list ResultItem) : Prop :=
  selectedFiles a' = selectedFiles a /\ loading a' = loading a
  /\ app_error a' = app_error a /\ results a' = l.

(** How the loop leaves the item of [pf], [k] being the number of the last
    request sent for it: untouched when it carries a preprocessing error,
    settled otherwise. *)
Definition item_outcome (env : Env) (k : nat) (pf : PreprocessedItem) (r : ResultItem)
  : Prop :=
  processing r = false
  /\ (has_error pf = true -> r = initial_result pf)
  /\ (has_error pf = false ->
      exists d e, terminal_shape env k d e /\ r = settle_item d e (initial_result pf)).

(** [P'] is [P] with one item, still processing in [P], brought to a
    terminal shape. *)
Inductive settles (env : Env) (P P' : list ResultItem) : Prop :=
| settles_at (j : nat) (r : ResultItem) (k : nat) (d e : Json) :
    P !! j = Some r -> processing r = true -> terminal_shape env k d e ->
    P' = alter (settle_item d e) j P -> settles env P P'.

(** Every element of [x :: l] is related to the next one. *)
Fixpoint chain {A} (R : A -> A -> Prop) (x : A) (l : list A) : Prop :=
  match l with
  | [] => True
  | y :: l' => R x y /\ chain R y l'
  end.

Definition final_of {A} (x : A) (l : list A) : A := default x (last l).

(** The item that preprocessing file [f] yields on its own, the file
    reader and the EXIF parser giving their [k]-th and [x]-th answers. *)
Definition probe (k x : nat) : Sys :=
  {| app := idle []; fetches := 0; randoms := 0; reads := k; exifs := x; trace := [] |}.

Definition preprocessed (v : Variant) (env : Env) (f : File) (k x : nat)
  : PreprocessedItem :=
  match fst (preprocess v f env (probe k x)) with
  | Normal pf => pf
  | Abrupt e => preprocessing_failed f e
  end.

Definition exif_step (v : Variant) : nat :=
  match v with PassionMapper => 1 | _ => 0 end.

Fixpoint preprocessed_from (v : Variant) (env : Env) (files : list File) (k x : nat)
  : list PreprocessedItem :=
  match files with
  | [] => []
  | f :: rest => preprocessed v env f k x :: preprocessed_from v env rest (S k) (x + exif_step v)
  end.

Definition preprocess_events (v : Variant) (f : File) : list Event :=
  match v with
  | PassionMapper => [EvRead f; EvExif f]
  | _ => [EvRead f]
  end.

Definition after_preprocess (v : Variant) (f : File) (s : Sys) : Sys :=
  {| app := app s; fetches := fetches s; randoms := randoms s;
     reads := S (reads s); exifs := exifs s + exif_step v;
     trace := (trace s ++ preprocess_events v f)%list |}.

(** The payloads of the calls made for [pending], item [k] being sent
    [counts !! k] times. *)
Definition payloads_sent (env : Env) (pending : list PreprocessedItem) (counts : list nat)
  : list Payload :=
  concat (zip_with (fun pf n => replicate n (build_payload env pf)) pending counts).

(** An item with a preprocessing error is never sent; any other is sent
    once, and again for each retry, at most three times. *)
Definition sent_count_ok (pf : PreprocessedItem) (n : nat) : Prop :=
  if has_error pf then n = 0%nat else (1 <= n <= 3)%nat.

(** What a call of the retrying helper leaves behind: the component state
    and the file counters are untouched, and the trace grows by the events
    of a call with fewer than [bound] pauses, the [k]-th pause being the
    delay computed for attempt [attempt + k]. *)
Definition call_effects (url : string) (options : RequestInit) (attempt : Z)
    (bound : nat) (env : Env) (s s' : Sys) : Prop :=
  exists ds : list Number,
    trace s' = (trace s ++ call_events url options ds)%list
    /\ (length ds < bound)%nat
    /\ app s' = app s /\ reads s' = reads s /\ exifs s' = exifs s
    /\ fetches s' = (fetches s + S (length ds))%nat
    /\ forall k d, ds !! k = Some d ->
         d = backoff_delay (attempt + Z.of_nat k) (Math_random env (randoms s + k)).

(** ** Further vocabulary: requests, pauses, the render, user sessions *)

(** The requests issued, in order: the two arguments of each [fetch]. *)
Fixpoint requests (t : list Event) : list (string * RequestInit) :=
  match t with
  | [] => []
  | EvFetch url options :: rest => (url, options) :: requests rest
  | _ :: rest => requests rest
  end.

(** Where a request of the inference loop goes and how. *)
Definition posted_to (url : string) (q : string * RequestInit) : Prop :=
  q.1 = url /\ method q.2 = "POST"
  /\ headers q.2 = [("Content-Type", "application/json")].

(** Values on which [toFixed] is defined. *)
Definition is_number (v : Json) : bool :=
  match v with JNum _ => true | _ => false end.

(** The tags the first variant works with: those the parser returned, or
    the empty object its [catch] substitutes. *)
Definition tags_or_empty (c : Completion Tags) : Tags :=
  match c with Normal t => t | Abrupt _ => no_tags end.

(** A sample environment whose EXIF parser settles with [c] for every
    file; files are read successfully and every request fails. *)
Definition sample_exif_env (c : Completion Tags) : Env :=
  {| fetch_reply := fun _ => Rejected network_error;
     Math_random := fun _ => 0%Q;
     FileReader_result := fun _ => Normal "data:image/png;base64,aGVsbG8=";
     ExifReader_load := fun _ => c;
     JSON_parse := sample_parse;
     toFixed6 := fun _ => "25.761700";
     template_string := fun _ => "";
     toLocaleDateString := fun _ => "1/1/2024";
     VITE_GEMINI_API_KEY := Some "k";
     PROMPT_TEMPLATE := fun _ _ => "Analyze the provided image.";
     ITINERARY_ITEMS := [] |}.

(** The time spent in a list of pauses. *)
Definition total_pause (ds : list Q) : Q := fold_right Qplus 0%Q ds.

(** The condition under which the render shows a result card:
    [!result.processing && (result.data || result.error)]. *)
Definition card_shown (r : ResultItem) : bool :=
  negb (processing r) && (truthy (data r) || truthy (error r)).

(** [results.filter(r => !r.processing && (r.data || r.error)).length]. *)
Definition numProcessed (l : list ResultItem) : nat :=
  length (List.filter card_shown l).

(** What a user can do, one action at a time: choose files, remove the
    file at a position, press the analysis button (the run it starts is
    carried through before the next action). *)
Inductive Action : Type :=
| Choose (files : list File)
| Remove (indexToRemove : Z)
| Analyze.

Definition perform (v : Variant) (a : Action) : Js unit :=
  match a with
  | Choose files => handleFileChange files
  | Remove indexToRemove => removeFile indexToRemove
  | Analyze => analyzeImages v
  end.

Fixpoint perform_all (v : Variant) (actions : list Action) : Js unit :=
  match actions with
  | [] => ret tt
  | a :: rest => perform v a ;;; perform_all v rest
  end.

(** What holds of the component state between two actions. *)
Definition well_formed (a : AppState) : Prop :=
  (length (selectedFiles a) <= 25)%nat
  /\ Forall (fun f => is_image f = true) (selectedFiles a)
  /\ loading a = false
  /\ (results a = [] \/ map file (results a) = selectedFiles a).

(** * Properties *)

(** ** Sanity checks of the embedding *)

Example limit_message_text :
  limit_message = "Maximum of 25 photos allowed. Please select fewer files.".
Proof. reflexivity. Qed.

Example status_error_text :
  message (status_error response_500)
  = Some "API call failed with status: 500 Internal Server Error".
Proof. reflexivity. Qed.

Example candidate_text_is_found :
  get_prop_opt
    (get_first_opt
       (get_prop_opt
          (get_prop_opt (get_first_opt (assoc "candidates" [("candidates",
             JArr [JObj [("content", JObj [("parts", JArr [JObj [("text", JStr "{}")]])])]])]))
             "content") "parts")) "text"
  = Some (JStr "{}").
Proof. reflexivity. Qed.

Example non_images_are_dropped :
  selectedFiles
    (app (snd (handleFileChange
                 [photo "a"; {| name := "notes.txt"; type := "text/plain"; lastModified := 0 |};
                  photo "b"]
                 (sample_env None [] []) (start (idle [photo "z"])))))
  = [photo "z"; photo "a"; photo "b"].
Proof. reflexivity. Qed.

(** ** Rounding to binary64 *)

Local Open Scope Q_scope.

Lemma round_half_even_spec q :
  inject_Z (round_half_even q) - (1 # 2) <= q
  /\ q <= inject_Z (round_half_even q) + (1 # 2)
  /\ (q == inject_Z (round_half_even q) + (1 # 2)
      \/ q == inject_Z (round_half_even q) - (1 # 2) ->
      Z.even (round_half_even q) = true).
Proof.
  unfold round_half_even.
  pose proof (Qfloor_le q) as Hlo. pose proof (Qlt_floor q) as Hhi.
  rewrite inject_Z_plus in Hhi. change (inject_Z 1) with 1 in Hhi.
  destruct (Qcompare_spec (q - inject_Z (Qfloor q)) (1 # 2)) as [He | Hl | Hg].
  - destruct (Z.even (Qfloor q)) eqn:Ev.
    + split; [lra | split; [lra | intros _; exact Ev]].
    + rewrite inject_Z_plus. change (inject_Z 1) with 1.
      split; [lra | split; [lra | intros _]].
      rewrite <- Z.negb_odd, Z.odd_add, <- Z.negb_even, Ev. reflexivity.
  - split; [lra | split; [lra | intros [H | H]; lra]].
  - rewrite inject_Z_plus. change (inject_Z 1) with 1.
    split; [lra | split; [lra | intros [H | H]; lra]].
Qed.

Lemma round_half_even_mono x y : x <= y -> (round_half_even x <= round_half_even y)%Z.
Proof.
  intros Hxy.
  destruct (round_half_even_spec x) as (Hx1 & Hx2 & Hx3).
  destruct (round_half_even_spec y) as (Hy1 & Hy2 & Hy3).
  destruct (Z_le_gt_dec (round_half_even x) (round_half_even y)) as [H | H]; [exact H |].
  exfalso.
  assert (Hz : (round_half_even y + 1 <= round_half_even x)%Z) by lia.
  rewrite Zle_Qle, inject_Z_plus in Hz. change (inject_Z 1) with 1 in Hz.
  assert (E1 : inject_Z (round_half_even x) == inject_Z (round_half_even y) + 1) by lra.
  assert (Ex : Z.even (round_half_even x) = true) by (apply Hx3; right; lra).
  assert (Ey : Z.even (round_half_even y) = true) by (apply Hy3; left; lra).
  assert (E2 : round_half_even x = (round_half_even y + 1)%Z).
  { apply inject_Z_injective. rewrite inject_Z_plus. exact E1. }
  rewrite E2, Z.even_add, Ey in Ex. discriminate.
Qed.

Lemma round_half_even_int q z : q == inject_Z z -> round_half_even q = z.
Proof.
  intros Hq. destruct (round_half_even_spec q) as (H1 & H2 & _).
  assert (A : inject_Z (round_half_even q) < inject_Z (z + 1))
    by (rewrite inject_Z_plus; change (inject_Z 1) with 1; lra).
  assert (B : inject_Z z < inject_Z (round_half_even q + 1))
    by (rewrite inject_Z_plus; change (inject_Z 1) with 1; lra).
  rewrite <- Zlt_Qlt in A, B. lia.
Qed.

(** Powers of two. *)
Lemma pow2_pos e : 0 < 2 ^ e.
Proof. apply Qpower_0_lt. reflexivity. Qed.

Lemma pow2_le a b : (a <= b)%Z -> 2 ^ a <= 2 ^ b.
Proof. intros H. apply Qpower_le_compat_l; [exact H | discriminate]. Qed.

Lemma pow2_lt_inv a b : 2 ^ a < 2 ^ b -> (a < b)%Z.
Proof. intros H. apply (Qpower_lt_compat_l_inv 2); [exact H | reflexivity]. Qed.

Lemma pow2_plus a b : 2 ^ (a + b) == 2 ^ a * 2 ^ b.
Proof. apply Qpower_plus. discriminate. Qed.

Lemma pow2_inject k : (0 <= k)%Z -> inject_Z (2 ^ k) == 2 ^ k.
Proof. intros H. rewrite Zpower_Qpower by exact H. reflexivity. Qed.

Lemma floor_log2_spec x :
  0 < x -> 2 ^ floor_log2 x <= x /\ x < 2 ^ (floor_log2 x + 1).
Proof.
  intros Hx. unfold floor_log2.
  destruct x as [n d]. simpl Qnum. simpl Qden.
  assert (Hn : (0 < n)%Z) by (unfold Qlt in Hx; simpl in Hx; lia).
  pose proof (Z.log2_spec n Hn) as [Hn1 Hn2].
  pose proof (Z.log2_spec (Zpos d) (Pos2Z.is_pos d)) as [Hd1 Hd2].
  pose proof (Z.log2_nonneg n) as Ln. pose proof (Z.log2_nonneg (Zpos d)) as Ld.
  set (ln := Z.log2 n) in *. set (ld := Z.log2 (Zpos d)) in *.
  assert (Hq : n # d == inject_Z n / inject_Z (Zpos d)) by (apply Qmake_Qdiv).
  assert (Dpos : 0 < inject_Z (Zpos d)) by (rewrite <- (Zlt_Qlt 0); lia).
  (* bounds in Q *)
  assert (N1 : 2 ^ ln <= inject_Z n) by (rewrite <- pow2_inject by lia; rewrite <- Zle_Qle; exact Hn1).
  assert (N2 : inject_Z n < 2 ^ (ln + 1)).
  { rewrite <- pow2_inject by lia. rewrite <- Zlt_Qlt. replace (ln + 1)%Z with (Z.succ ln) by lia. exact Hn2. }
  assert (D1 : 2 ^ ld <= inject_Z (Zpos d)) by (rewrite <- pow2_inject by lia; rewrite <- Zle_Qle; exact Hd1).
  assert (D2 : inject_Z (Zpos d) < 2 ^ (ld + 1)).
  { rewrite <- pow2_inject by lia. rewrite <- Zlt_Qlt. replace (ld + 1)%Z with (Z.succ ld) by lia. exact Hd2. }
  (* x < 2^(ln - ld + 1) and 2^(ln - ld - 1) < x *)
  assert (Up : n # d < 2 ^ (ln - ld + 1)).
  { rewrite Hq. apply Qlt_shift_div_r; [exact Dpos |].
    apply Qlt_le_trans with (2 ^ (ln + 1)); [exact N2 |].
    replace (ln + 1)%Z with ((ln - ld + 1) + ld)%Z by lia. rewrite pow2_plus.
    apply Qmult_le_l; [apply pow2_pos | exact D1]. }
  assert (Lo : 2 ^ (ln - ld - 1) < n # d).
  { rewrite Hq. apply Qlt_shift_div_l; [exact Dpos |].
    apply Qlt_le_trans with (2 ^ ln); [| exact N1].
    replace ln with ((ln - ld - 1) + (ld + 1))%Z at 2 by lia. rewrite pow2_plus.
    apply Qmult_lt_l; [apply pow2_pos | exact D2]. }
  destruct (Qle_bool (2 ^ (ln - ld)) (n # d)) eqn:E.
  - apply Qle_bool_iff in E. split; [exact E | exact Up].
  - split; [apply Qlt_le_weak, Lo |].
    replace (ln - ld - 1 + 1)%Z with (ln - ld)%Z by lia.
    apply Qnot_le_lt. intros H. apply Qle_bool_iff in H. congruence.
Qed.

Lemma floor_log2_mono x y : 0 < x -> x <= y -> (floor_log2 x <= floor_log2 y)%Z.
Proof.
  intros Hx Hxy.
  destruct (floor_log2_spec x Hx) as [Hx1 _].
  destruct (floor_log2_spec y) as [_ Hy2]; [lra |].
  assert (H : 2 ^ floor_log2 x < 2 ^ (floor_log2 y + 1)) by lra.
  apply pow2_lt_inv in H. lia.
Qed.

Lemma scaled_below x : 0 < x -> x / 2 ^ quantum x < inject_Z (2 ^ 53).
Proof.
  intros Hx. destruct (floor_log2_spec x Hx) as [_ H2].
  apply Qlt_shift_div_r; [apply pow2_pos |].
  rewrite pow2_inject by lia. rewrite <- pow2_plus.
  apply Qlt_le_trans with (2 ^ (floor_log2 x + 1)); [exact H2 |].
  apply pow2_le. unfold quantum. lia.
Qed.

Lemma scaled_above x :
  0 < x -> quantum x = (floor_log2 x - 52)%Z -> inject_Z (2 ^ 52) <= x / 2 ^ quantum x.
Proof.
  intros Hx He. destruct (floor_log2_spec x Hx) as [H1 _].
  apply Qle_shift_div_l; [apply pow2_pos |].
  rewrite pow2_inject by lia. rewrite <- pow2_plus.
  apply Qle_trans with (2 ^ floor_log2 x); [| exact H1].
  apply pow2_le. lia.
Qed.

Lemma round_positive_nonneg x : 0 < x -> 0 <= round_positive x.
Proof.
  intros Hx. unfold round_positive.
  apply Qmult_le_0_compat; [| apply Qlt_le_weak, pow2_pos].
  change 0 with (inject_Z 0). rewrite <- Zle_Qle.
  rewrite <- (round_half_even_int 0 0) by reflexivity.
  apply round_half_even_mono.
  apply Qle_shift_div_l; [apply pow2_pos | lra].
Qed.

Lemma round_positive_mono x y : 0 < x -> x <= y -> round_positive x <= round_positive y.
Proof.
  intros Hx Hxy. assert (Hy : 0 < y) by lra.
  pose proof (floor_log2_mono x y Hx Hxy) as Hfl.
  assert (He : (quantum x <= quantum y)%Z) by (unfold quantum; lia).
  unfold round_positive.
  destruct (Z.eq_dec (quantum x) (quantum y)) as [E | E].
  - rewrite E. apply Qmult_le_compat_r; [| apply Qlt_le_weak, pow2_pos].
    rewrite <- Zle_Qle. apply round_half_even_mono.
    apply Qmult_le_compat_r; [exact Hxy |].
    apply Qlt_le_weak, Qinv_lt_0_compat, pow2_pos.
  - assert (Hq : quantum y = (floor_log2 y - 52)%Z) by (unfold quantum in *; lia).
    apply Qle_trans with (inject_Z (2 ^ 53) * 2 ^ quantum x).
    + apply Qmult_le_compat_r; [| apply Qlt_le_weak, pow2_pos].
      rewrite <- Zle_Qle.
      rewrite <- (round_half_even_int (inject_Z (2 ^ 53)) (2 ^ 53)) by reflexivity.
      apply round_half_even_mono, Qlt_le_weak, scaled_below, Hx.
    + apply Qle_trans with (inject_Z (2 ^ 52) * 2 ^ quantum y).
      * rewrite !pow2_inject by lia. rewrite <- !pow2_plus. apply pow2_le. lia.
      * apply Qmult_le_compat_r; [| apply Qlt_le_weak, pow2_pos].
        rewrite <- Zle_Qle.
        rewrite <- (round_half_even_int (inject_Z (2 ^ 52)) (2 ^ 52)) at 1 by reflexivity.
        apply round_half_even_mono, scaled_above; assumption.
Qed.

Lemma Qnum_pos x : 0 < x <-> (0 < Qnum x)%Z.
Proof. unfold Qlt. simpl. rewrite Z.mul_1_r. reflexivity. Qed.

Lemma round64_pos x : 0 < x -> round64 x = round_positive x.
Proof.
  intros Hx. apply Qnum_pos in Hx. unfold round64.
  destruct (Qnum x); [lia | reflexivity | lia].
Qed.

Lemma round64_zero x : x == 0 -> round64 x = 0.
Proof.
  intros Hx. unfold Qeq in Hx. simpl in Hx. rewrite Z.mul_1_r in Hx.
  unfold round64. rewrite Hx. reflexivity.
Qed.

(** Rounding is monotone on the non-negative numbers. *)
Lemma round64_mono x y : 0 <= x -> x <= y -> round64 x <= round64 y.
Proof.
  intros Hx Hxy.
  destruct (Qlt_le_dec 0 x) as [Px | Zx].
  - rewrite !round64_pos by lra. apply round_positive_mono; assumption.
  - rewrite (round64_zero x) by lra.
    destruct (Qlt_le_dec 0 y) as [Py | Zy].
    + rewrite round64_pos by exact Py. apply round_positive_nonneg, Py.
    + rewrite (round64_zero y) by lra. apply Qle_refl.
Qed.

(** Integers below [2^53] are round64 values. *)
Lemma round64_int x n : (0 <= n < 2 ^ 53)%Z -> x == inject_Z n -> round64 x == inject_Z n.
Proof.
  intros Hn Hx. destruct (Z.eq_dec n 0%Z) as [-> | Hn0].
  - rewrite (round64_zero x) by exact Hx. reflexivity.
  - assert (Px : 0 < x).
    { rewrite Hx. change 0 with (inject_Z 0). rewrite <- Zlt_Qlt. lia. }
    rewrite round64_pos by exact Px. unfold round_positive.
    destruct (floor_log2_spec x Px) as [H1 _].
    assert (Hfl : (floor_log2 x < 53)%Z).
    { apply pow2_lt_inv. apply Qle_lt_trans with x; [exact H1 |].
      rewrite Hx, <- pow2_inject by lia. rewrite <- Zlt_Qlt. lia. }
    assert (Hq : (-1074 <= quantum x <= 0)%Z) by (unfold quantum; lia).
    set (e := quantum x) in *.
    assert (Hs : x / 2 ^ e == inject_Z (n * 2 ^ (- e))).
    { rewrite inject_Z_mult, pow2_inject by lia. rewrite Hx, Qpower_opp. reflexivity. }
    rewrite (round_half_even_int _ _ Hs), inject_Z_mult, pow2_inject by lia.
    rewrite <- Qmult_assoc, <- pow2_plus. replace (- e + e)%Z with 0%Z by lia.
    simpl. ring.
Qed.

(** The largest round64 value below 1 is [1 - 2^-53]. *)
Lemma round64_below_one r :
  round64 r == r -> 0 <= r -> r < 1 -> r <= 1 - 2 ^ (-53).
Proof.
  intros Hr H0 H1.
  destruct (Qlt_le_dec 0 r) as [Pr | Zr]; [| apply Qle_trans with 0; [exact Zr | discriminate]].
  destruct (floor_log2_spec r Pr) as [Hl Hu].
  assert (Hfl : (floor_log2 r < 0)%Z).
  { apply pow2_lt_inv. apply Qle_lt_trans with r; [exact Hl | exact H1]. }
  destruct (Z.eq_dec (floor_log2 r) (-1)%Z) as [E | E].
  - rewrite round64_pos in Hr by exact Pr. unfold round_positive in Hr.
    assert (Hq : quantum r = (-53)%Z) by (unfold quantum; lia).
    rewrite Hq in Hr. set (z := round_half_even (r / 2 ^ (-53))) in *.
    assert (Hz : (z < 2 ^ 53)%Z).
    { rewrite Zlt_Qlt. apply Qmult_lt_r with (2 ^ (-53)); [apply pow2_pos |].
      rewrite Hr. apply Qlt_le_trans with 1; [exact H1 | vm_compute; discriminate]. }
    rewrite <- Hr.
    apply Qle_trans with (inject_Z (2 ^ 53 - 1) * 2 ^ (-53)); [| vm_compute; discriminate].
    apply Qmult_le_compat_r; [| apply Qlt_le_weak, pow2_pos].
    rewrite <- Zle_Qle. lia.
  - apply Qle_trans with (2 ^ (-1)); [| vm_compute; discriminate].
    apply Qle_trans with (2 ^ (floor_log2 r + 1)); [apply Qlt_le_weak, Hu |].
    apply pow2_le. lia.
Qed.

(** Rounding depends on the number only, not on the fraction that
    denotes it. *)
Lemma round_half_even_comp q q' : q == q' -> round_half_even q = round_half_even q'.
Proof.
  intros H. unfold round_half_even. cbv zeta.
  assert (Hf : Qfloor q = Qfloor q') by (apply Qfloor_comp; exact H).
  assert (Hc : Qcompare (q - inject_Z (Qfloor q')) (1 # 2)
               = Qcompare (q' - inject_Z (Qfloor q')) (1 # 2)).
  { apply Qcompare_comp; [rewrite H; reflexivity | reflexivity]. }
  rewrite Hf, Hc. reflexivity.
Qed.

Lemma floor_log2_comp x y : 0 < x -> x == y -> floor_log2 x = floor_log2 y.
Proof.
  intros Hx Hxy.
  destruct (floor_log2_spec x Hx) as [A1 A2].
  destruct (floor_log2_spec y) as [B1 B2]; [lra |].
  assert (H1 : 2 ^ floor_log2 x < 2 ^ (floor_log2 y + 1)) by lra.
  assert (H2 : 2 ^ floor_log2 y < 2 ^ (floor_log2 x + 1)) by lra.
  apply pow2_lt_inv in H1, H2. lia.
Qed.

Lemma round_positive_comp x y : 0 < x -> x == y -> round_positive x = round_positive y.
Proof.
  intros Hx Hxy. unfold round_positive, quantum.
  rewrite (floor_log2_comp x y Hx Hxy).
  rewrite (round_half_even_comp (x / _) (y / 2 ^ Z.max (floor_log2 y - 52) (-1074)));
    [reflexivity | rewrite Hxy; reflexivity].
Qed.

Lemma Qnum_neg x : x < 0 <-> (Qnum x < 0)%Z.
Proof. unfold Qlt. simpl. rewrite Z.mul_1_r. reflexivity. Qed.

Lemma round64_neg x : x < 0 -> round64 x = - round_positive (- x).
Proof.
  intros Hx. apply Qnum_neg in Hx. unfold round64.
  destruct (Qnum x); [lia | lia | reflexivity].
Qed.

Lemma round64_comp x y : x == y -> round64 x = round64 y.
Proof.
  intros Hxy.
  destruct (Q_dec x 0) as [[Hn | Hp] | Hz].
  - rewrite !round64_neg by lra.
    rewrite (round_positive_comp (- x) (- y)); [reflexivity | lra | lra].
  - rewrite !round64_pos by lra. apply round_positive_comp; assumption.
  - rewrite !round64_zero by lra. reflexivity.
Qed.

Lemma binary64_comp x y : x == y -> binary64 x = binary64 y.
Proof.
  intros Hxy. unfold binary64. rewrite (round64_comp x y Hxy). reflexivity.
Qed.

Lemma round64_nonneg x : 0 <= x -> 0 <= round64 x.
Proof.
  intros Hx. destruct (Qlt_le_dec 0 x) as [Px | Zx].
  - rewrite round64_pos by exact Px. apply round_positive_nonneg, Px.
  - rewrite round64_zero by lra. apply Qle_refl.
Qed.

(** A non-negative number below an integer that fits in 53 bits rounds to
    a finite value. *)
Lemma binary64_finite x n :
  (n < 2 ^ 53)%Z -> 0 <= x -> x <= inject_Z n -> binary64 x = Finite (round64 x).
Proof.
  intros Hn H0 Hx.
  assert (Hn0 : (0 <= n)%Z) by (rewrite Zle_Qle; change (inject_Z 0) with 0; lra).
  pose proof (round64_nonneg x H0) as Hlo.
  pose proof (round64_mono x (inject_Z n) H0 Hx) as Hhi.
  rewrite (round64_int (inject_Z n) n) in Hhi by (try lia; reflexivity).
  assert (Hb : inject_Z n < 2 ^ 1024).
  { apply Qlt_le_trans with (inject_Z (2 ^ 53)); [rewrite <- Zlt_Qlt; exact Hn |].
    vm_compute. discriminate. }
  assert (Hpos : 0 < 2 ^ 1024) by apply pow2_pos.
  unfold binary64. cbv zeta.
  destruct (Qle_bool (2 ^ 1024) (round64 x)) eqn:E1.
  - apply Qle_bool_iff in E1. lra.
  - destruct (Qle_bool (round64 x) (- 2 ^ 1024)) eqn:E2; [| reflexivity].
    apply Qle_bool_iff in E2. lra.
Qed.

Lemma top_jitter : round64 ((1 - 2 ^ (-53)) * 500) == 500 - 2 ^ (-44).
Proof. vm_compute. reflexivity. Qed.

(** The delay before the retry that follows attempt [k], for a value [r]
    of [Math.random()]: the base is exact, the jitter stays below 500, and
    the rounded sum lies between the base and the base plus 500. *)
Lemma backoff_delay_bounds k r :
  (0 <= k <= 43)%Z -> random_value r ->
  exists jitter t : Q,
    Number_mul (Finite r) (Finite 500) = Finite jitter
    /\ 0 <= jitter /\ jitter < 500
    /\ backoff_delay k r = Number_add (Finite (backoff_base k)) (Finite jitter)
    /\ backoff_delay k r = Finite t
    /\ backoff_base k <= t /\ t <= backoff_base k + 500.
Proof.
  intros Hk (Hr & H0 & H1).
  pose proof (round64_below_one r Hr H0 H1) as Htop.
  assert (Hp : (2 ^ k <= 2 ^ 43)%Z) by (apply Z.pow_le_mono_r; lia).
  assert (Hp0 : (0 < 2 ^ k)%Z) by (apply Z.pow_pos_nonneg; lia).
  change (2 ^ 43)%Z with 8796093022208%Z in Hp.
  assert (Hbb : backoff_base k == inject_Z (2 ^ k * 1000)).
  { unfold backoff_base. rewrite inject_Z_mult. reflexivity. }
  (* Math.pow(2, k) *)
  assert (E2k : 2 ^ k == inject_Z (2 ^ k)) by (symmetry; apply pow2_inject; lia).
  assert (Fpow : Math_pow_2 k = Finite (round64 (2 ^ k))).
  { unfold Math_pow_2. apply (binary64_finite _ (2 ^ k)); [| rewrite E2k .. ].
    - change (2 ^ 53)%Z with 9007199254740992%Z. lia.
    - rewrite <- (Zle_Qle 0). lia.
    - apply Qle_refl. }
  assert (Vpow : round64 (2 ^ k) == inject_Z (2 ^ k)).
  { apply round64_int; [| exact E2k]. change (2 ^ 53)%Z with 9007199254740992%Z. lia. }
  (* ... * 1000 *)
  assert (Ebase : round64 (2 ^ k) * 1000 == inject_Z (2 ^ k * 1000)).
  { rewrite Vpow, inject_Z_mult. reflexivity. }
  assert (Fbase : Number_mul (Math_pow_2 k) (Finite 1000)
                  = Finite (round64 (round64 (2 ^ k) * 1000))).
  { rewrite Fpow. cbn [Number_mul].
    apply (binary64_finite _ (2 ^ k * 1000)); [| rewrite Ebase .. ].
    - change (2 ^ 53)%Z with 9007199254740992%Z. lia.
    - rewrite <- (Zle_Qle 0). lia.
    - apply Qle_refl. }
  assert (Vbase : round64 (round64 (2 ^ k) * 1000) == backoff_base k).
  { rewrite Hbb. apply round64_int; [| exact Ebase].
    change (2 ^ 53)%Z with 9007199254740992%Z. lia. }
  (* Math.random() * 500 *)
  assert (Fjit : Number_mul (Finite r) (Finite 500) = Finite (round64 (r * 500))).
  { cbn [Number_mul]. apply (binary64_finite _ 500); [reflexivity | lra |].
    change (inject_Z 500) with 500. lra. }
  assert (J0 : 0 <= round64 (r * 500)) by (apply round64_nonneg; lra).
  assert (J1 : round64 (r * 500) <= 500 - 2 ^ (-44)).
  { rewrite <- top_jitter. apply round64_mono; lra. }
  assert (Hsmall : 0 < 2 ^ (-44)) by apply pow2_pos.
  set (j := round64 (r * 500)) in *.
  set (b := round64 (round64 (2 ^ k) * 1000)) in *.
  assert (Hb : b == inject_Z (2 ^ k * 1000)) by (rewrite Vbase; exact Hbb).
  (* the sum *)
  assert (Fsum : binary64 (b + j) = Finite (round64 (b + j))).
  { apply (binary64_finite _ (2 ^ k * 1000 + 500)).
    - change (2 ^ 53)%Z with 9007199254740992%Z. lia.
    - assert (0 <= inject_Z (2 ^ k * 1000)) by (rewrite <- (Zle_Qle 0); lia). lra.
    - rewrite inject_Z_plus. change (inject_Z 500) with 500. lra. }
  exists j, (round64 (b + j)).
  assert (Hdelay : backoff_delay k r = Finite (round64 (b + j))).
  { unfold backoff_delay. rewrite Fbase, Fjit. exact Fsum. }
  split; [exact Fjit |]. split; [exact J0 |]. split; [lra |].
  split.
  { rewrite Hdelay. cbn [Number_add]. rewrite <- Fsum.
    apply binary64_comp. rewrite Vbase. reflexivity. }
  split; [exact Hdelay |].
  assert (B0 : 0 <= inject_Z (2 ^ k * 1000)) by (rewrite <- (Zle_Qle 0); lia).
  assert (V1 : round64 (inject_Z (2 ^ k * 1000)) == inject_Z (2 ^ k * 1000)).
  { apply round64_int; [| reflexivity]. change (2 ^ 53)%Z with 9007199254740992%Z. lia. }
  assert (V2 : round64 (inject_Z (2 ^ k * 1000 + 500)) == inject_Z (2 ^ k * 1000 + 500)).
  { apply round64_int; [| reflexivity]. change (2 ^ 53)%Z with 9007199254740992%Z. lia. }
  assert (M1 : round64 (inject_Z (2 ^ k * 1000)) <= round64 (b + j))
    by (apply round64_mono; lra).
  assert (M2 : round64 (b + j) <= round64 (inject_Z (2 ^ k * 1000 + 500))).
  { apply round64_mono; [lra |]. rewrite inject_Z_plus. change (inject_Z 500) with 500. lra. }
  assert (E500 : inject_Z (2 ^ k * 1000 + 500) == inject_Z (2 ^ k * 1000) + 500)
    by (rewrite inject_Z_plus; reflexivity).
  split; lra.
Qed.

(** The same arithmetic on the hardware numbers of the proof assistant. *)
Example round64_agrees_with_hardware :
  same_number (0x1.fffffffffffffp-1 * 500)%float
              (Number_mul (Finite (1 - 2 ^ (-53))) (Finite 500)) = true
  /\ same_number (0x1p0 * 1000 + 0x1.fffffffffffffp-1 * 500)%float
                 (backoff_delay 0 (1 - 2 ^ (-53))) = true
  /\ same_number (0x1p1 * 1000 + 0x1p-2 * 500)%float (backoff_delay 1 (1 # 4)) = true
  /\ same_number (0x1p-1074 * 0x1p-1)%float
                 (Number_mul (Finite (2 ^ (-1074))) (Finite (1 # 2))) = true
  /\ same_number (0x1p-1074 * 0x1.8p0)%float
                 (Number_mul (Finite (2 ^ (-1074))) (Finite (3 # 2))) = true
  /\ same_number (0x1.999999999999ap-4 + 0x1.999999999999ap-3)%float
                 (Number_add (Finite (3602879701896397 # 36028797018963968))
                             (Finite (3602879701896397 # 18014398509481984))) = true.
Proof. repeat split; vm_compute; reflexivity. Qed.

Example overflow_is_infinite :
  Math_pow_2 1024 = Infinite false
  /\ backoff_delay 1015 0 = Infinite false
  /\ exists t, backoff_delay 1014 0 = Finite t.
Proof. repeat split; [vm_compute; reflexivity .. | eexists; vm_compute; reflexivity]. Qed.

Local Close Scope Q_scope.

(** ** The retrying call *)

(** One iteration in closed form.  The status of a non-ok response plays
    no part in it: the error thrown for it inside the [try] is caught by the
    [catch] of the same iteration. *)
Lemma attempt_body_spec url options attempt maxRetries env s :
  attempt_body url options attempt maxRetries env s =
  let s1 := after_fetch url options s in
  match fetch_reply env (fetches s) with
  | Resolved r =>
      if ok r then (Normal (Return r), s1)
      else if (attempt =? maxRetries - 1)%Z then (Abrupt (status_error r), s1)
      else (Normal Continue, after_backoff attempt env s1)
  | Rejected e =>
      if (attempt =? maxRetries - 1)%Z then (Abrupt e, s1)
      else (Normal Continue, after_backoff attempt env s1)
  end.
Proof.
  unfold attempt_body, try_catch, bind, fetch, after_fetch, after_backoff; simpl.
  destruct (fetch_reply env (fetches s)) as [r | e]; simpl.
  - destruct (ok r); [reflexivity |].
    destruct (Z.eqb_spec (status r) 429), (Z.ltb_spec attempt (maxRetries - 1)),
      (Z.eqb_spec attempt (maxRetries - 1)); simpl; try reflexivity; lia.
  - destruct (Z.eqb_spec attempt (maxRetries - 1)); reflexivity.
Qed.

Lemma attempts_from_S n url options attempt maxRetries env s :
  attempts_from (S n) url options attempt maxRetries env s =
  match attempt_body url options attempt maxRetries env s with
  | (Normal (Return r), s1) => (Normal (Some r), s1)
  | (Normal Continue, s1) => attempts_from n url options (attempt + 1) maxRetries env s1
  | (Abrupt e, s1) => (Abrupt e, s1)
  end.
Proof.
  simpl. unfold bind.
  destruct (attempt_body url options attempt maxRetries env s) as [[[r |] | e] s1];
    reflexivity.
Qed.

Lemma call_effects_stop url options attempt n env s :
  call_effects url options attempt (S n) env s (after_fetch url options s).
Proof.
  exists []. simpl. repeat split; try lia.
  intros k d Hk. destruct k; discriminate.
Qed.

Lemma call_effects_retry url options attempt n env s s' :
  call_effects url options (attempt + 1) n env
    (after_backoff attempt env (after_fetch url options s)) s' ->
  call_effects url options attempt (S n) env s s'.
Proof.
  intros (ds & Htr & Hlen & Happ & Hrd & Hex & Hf & Hd).
  exists (backoff_delay attempt (Math_random env (randoms s)) :: ds).
  rewrite Htr, Happ, Hrd, Hex, Hf. simpl.
  repeat split; try lia.
  - unfold call_events. simpl. rewrite <- !app_assoc. reflexivity.
  - intros [| k] d Hk; simpl in Hk.
    + inversion Hk. f_equal; [f_equal; lia | f_equal; lia].
    + rewrite (Hd k d Hk). f_equal; [lia | f_equal; simpl; lia].
Qed.

(** The loop, started with [n] values of [attempt] left below [maxRetries]. *)
Lemma attempts_from_effects n url options attempt maxRetries env s :
  (attempt + Z.of_nat n = maxRetries)%Z -> (1 <= n)%nat ->
  call_effects url options attempt n env s
    (snd (attempts_from n url options attempt maxRetries env s)).
Proof.
  revert attempt s. induction n as [| n IH]; intros attempt s Hsum Hn; [lia |].
  rewrite attempts_from_S, attempt_body_spec. cbv zeta.
  destruct (fetch_reply env (fetches s)) as [r | e];
    [destruct (ok r); [apply call_effects_stop |] |];
    (destruct (Z.eqb_spec attempt (maxRetries - 1));
     [apply call_effects_stop | apply call_effects_retry, IH; lia]).
Qed.

(** The loop never hands back a response that is not ok, nor [undefined]. *)
Lemma attempts_from_result n url options attempt maxRetries env s :
  (attempt + Z.of_nat n = maxRetries)%Z -> (1 <= n)%nat ->
  match fst (attempts_from n url options attempt maxRetries env s) with
  | Normal (Some r) => ok r = true
  | Normal None => False
  | Abrupt _ => True
  end.
Proof.
  revert attempt s. induction n as [| n IH]; intros attempt s Hsum Hn; [lia |].
  rewrite attempts_from_S, attempt_body_spec. cbv zeta.
  destruct (fetch_reply env (fetches s)) as [r | e];
    [destruct (ok r) eqn:Hok; [exact Hok |] |];
    (destruct (Z.eqb_spec attempt (maxRetries - 1)); [exact I | apply IH; lia]).
Qed.

(** C10. With [maxRetries >= 1], [exponentialBackoffFetch] either returns a
    response whose [ok] is true or throws: it returns neither a non-ok
    response nor [undefined]. *)
Theorem exponentialBackoffFetch_ok_or_throws url options maxRetries env s :
  (1 <= maxRetries)%Z ->
  (exists r, fst (exponentialBackoffFetch url options maxRetries env s) = Normal (Some r)
             /\ ok r = true)
  \/ (exists e, fst (exponentialBackoffFetch url options maxRetries env s) = Abrupt e).
Proof.
  intros Hmax. unfold exponentialBackoffFetch.
  pose proof (attempts_from_result (Z.to_nat maxRetries) url options 0 maxRetries env s) as H.
  destruct (fst (attempts_from (Z.to_nat maxRetries) url options 0 maxRetries env s))
    as [[r |] | e].
  - left. exists r. split; [reflexivity | apply H; lia].
  - exfalso. apply H; lia.
  - right. exists e. reflexivity.
Qed.

Lemma exponentialBackoffFetch_ok_or_throws_witness :
  (exists r, fst (exponentialBackoffFetch "u" sample_request 3
                    (sample_env None [Resolved response_429; Resolved (response_200 (JStr "{}"))] [])
                    (start (idle []))) = Normal (Some r)
             /\ ok r = true)
  \/ (exists e, fst (exponentialBackoffFetch "u" sample_request 3
                    (sample_env None [Resolved response_429; Resolved (response_200 (JStr "{}"))] [])
                    (start (idle []))) = Abrupt e).
Proof.
  apply exponentialBackoffFetch_ok_or_throws. lia.
Defined.

Lemma exponentialBackoffFetch_effects url options maxRetries env s :
  (1 <= maxRetries)%Z ->
  call_effects url options 0 (Z.to_nat maxRetries) env s
    (snd (exponentialBackoffFetch url options maxRetries env s)).
Proof.
  intros Hmax. apply attempts_from_effects; lia.
Qed.

Lemma events_since_app s s' evs :
  trace s' = (trace s ++ evs)%list -> events_since s s' = evs.
Proof.
  unfold events_since. intros ->. apply drop_app_length.
Qed.

Lemma sleeps_call_events url options ds : sleeps (call_events url options ds) = ds.
Proof.
  unfold call_events. induction ds as [| d ds IH]; simpl; [reflexivity | now rewrite IH].
Qed.

Lemma backoff_base_double k :
  (0 <= k)%Z -> (backoff_base (k + 1) == 2 * backoff_base k)%Q.
Proof.
  intros Hk. unfold backoff_base.
  rewrite Z.pow_add_r, Z.pow_1_r, inject_Z_mult by lia.
  change (inject_Z 2) with 2%Q. ring.
Qed.

Lemma backoff_base_value k : (backoff_base k == inject_Z (2 ^ k * 1000))%Q.
Proof.
  unfold backoff_base. rewrite inject_Z_mult. reflexivity.
Qed.

(** C1 (evaluation of the code where the claim fails).  A single 500
    followed by a success: the 500 is not reported; the call pauses, issues
    a second [fetch] and returns the second response. *)
Theorem status_500_is_retried :
  let env := sample_env None
               [Resolved response_500; Resolved (response_200 (JStr "{}"))] [] in
  let run := exponentialBackoffFetch "u" sample_request default_maxRetries env
               (start (idle [])) in
  ok response_500 = false /\ status response_500 = 500%Z
  /\ fst run = Normal (Some (response_200 (JStr "{}")))
  /\ fetches (snd run) = 2%nat
  /\ length (sleeps (trace (snd run))) = 1%nat.
Proof.
  cbv zeta. repeat split; vm_compute; reflexivity.
Qed.

(** Any non-ok response to an attempt that is not the last one is followed
    by a further [fetch], whatever its status. *)
Lemma non_ok_response_is_retried url options maxRetries env s r :
  (2 <= maxRetries)%Z ->
  fetch_reply env (fetches s) = Resolved r -> ok r = false ->
  (fetches s + 2 <= fetches (snd (exponentialBackoffFetch url options maxRetries env s)))%nat.
Proof.
  intros Hmax Hr Hok. unfold exponentialBackoffFetch.
  destruct (Z.to_nat maxRetries) as [| n] eqn:Hn; [lia |].
  rewrite attempts_from_S, attempt_body_spec. cbv zeta. rewrite Hr, Hok.
  destruct (Z.eqb_spec 0 (maxRetries - 1)); [lia |].
  destruct (attempts_from_effects n url options (0 + 1) maxRetries env
              (after_backoff 0 env (after_fetch url options s)))
    as (ds & _ & _ & _ & _ & _ & Hf & _); [lia | lia |].
  rewrite Hf. simpl. lia.
Qed.

Ltac retry_step :=
  rewrite attempts_from_S, attempt_body_spec; cbv zeta;
  cbn [fetches after_backoff after_fetch].

(** C2. With the default bound of three attempts: at most three [fetch]
    calls are issued; on [429, 429, ok] the ok response is returned after
    exactly three; a 429 or a rejected [fetch] on the first (and second)
    attempt is retried; and when all three attempts fail the error of the
    third is thrown. *)
Theorem default_retry_policy url options env s :
  let o1 := fetch_reply env (fetches s) in
  let o2 := fetch_reply env (S (fetches s)) in
  let o3 := fetch_reply env (S (S (fetches s))) in
  let run := exponentialBackoffFetch url options default_maxRetries env s in
  (fetches (snd run) <= fetches s + 3)%nat
  /\ (forall r, is_429 o1 = true -> is_429 o2 = true -> o3 = Resolved r -> ok r = true ->
        fst run = Normal (Some r) /\ fetches (snd run) = (fetches s + 3)%nat)
  /\ (is_429 o1 || is_rejection o1 = true -> (fetches s + 2 <= fetches (snd run))%nat)
  /\ (is_429 o1 || is_rejection o1 = true -> is_429 o2 || is_rejection o2 = true ->
        fetches (snd run) = (fetches s + 3)%nat)
  /\ (forall e1 e2 e3,
        failure_of o1 = Some e1 -> failure_of o2 = Some e2 -> failure_of o3 = Some e3 ->
        fst run = Abrupt e3 /\ fetches (snd run) = (fetches s + 3)%nat).
Proof.
  cbv zeta. unfold exponentialBackoffFetch, default_maxRetries.
  change (Z.to_nat 3) with 3%nat.
  retry_step. change (0 =? 3 - 1)%Z with false.
  destruct (fetch_reply env (fetches s)) as [r1 | x1] eqn:H1;
    [destruct (ok r1) eqn:K1 |].
  1: { cbn. rewrite K1. repeat split; intros; simplify_eq; try lia; discriminate. }
  all: retry_step; change (0 + 1 =? 3 - 1)%Z with false;
    (destruct (fetch_reply env (S (fetches s))) as [r2 | x2] eqn:H2;
     [destruct (ok r2) eqn:K2 |]).
  1, 4: cbn; rewrite ?K1, ?K2; cbn;
    repeat split; intros; simplify_eq; try lia; discriminate.
  all: retry_step; change (0 + 1 + 1 =? 3 - 1)%Z with true;
    (destruct (fetch_reply env (S (S (fetches s)))) as [r3 | x3] eqn:H3;
     [destruct (ok r3) eqn:K3 |]);
    cbn; rewrite ?K1, ?K2, ?K3; cbn;
    repeat split; intros; simplify_eq; try lia; try discriminate; try reflexivity;
    congruence.
Qed.

Lemma default_retry_policy_witness :
  let env := sample_env None
               [Resolved response_429; Resolved response_429;
                Resolved (response_200 (JStr "{}"))] [] in
  let env' := sample_env None
               [Resolved response_429; Rejected network_error; Resolved response_500] [] in
  (fst (exponentialBackoffFetch "u" sample_request default_maxRetries env (start (idle [])))
   = Normal (Some (response_200 (JStr "{}")))
   /\ fetches (snd (exponentialBackoffFetch "u" sample_request default_maxRetries env
                      (start (idle [])))) = 3%nat)
  /\ (fst (exponentialBackoffFetch "u" sample_request default_maxRetries env'
             (start (idle [])))
      = Abrupt (status_error response_500)
      /\ fetches (snd (exponentialBackoffFetch "u" sample_request default_maxRetries env'
                         (start (idle [])))) = 3%nat).
Proof.
  cbv zeta. split.
  - apply (default_retry_policy "u" sample_request
             (sample_env None [Resolved response_429; Resolved response_429;
                               Resolved (response_200 (JStr "{}"))] [])
             (start (idle []))); reflexivity.
  - pose proof (default_retry_policy "u" sample_request
                  (sample_env None [Resolved response_429; Rejected network_error;
                                    Resolved response_500] [])
                  (start (idle []))) as H.
    cbv zeta in H. destruct H as (_ & _ & _ & _ & H).
    apply (H (status_error response_429) network_error); reflexivity.
Defined.

(** C8 (amended).  In any call with a retry bound of at most 45 (so that
    [2^k * 1000 + 500] stays below [2^53]), [Math.random()] yielding
    binary64 values in [[0, 1)], the pause that follows attempt [k] is the
    binary64 sum of [2^k * 1000] and a jitter [Math.random() * 500] that
    lies in [[0, 500)]; the sum is rounded, so the pause lies between
    [2^k * 1000] and [2^k * 1000 + 500], both included.  The base doubles
    from one attempt to the next, and when at least one attempt is made the
    events of the call are its [fetch] calls with exactly these pauses in
    between. *)
Theorem backoff_schedule url options maxRetries env s :
  (maxRetries <= 45)%Z ->
  (forall i, random_value (Math_random env i)) ->
  let evs := events_since s (snd (exponentialBackoffFetch url options maxRetries env s)) in
  (forall (k : nat) d, sleeps evs !! k = Some d ->
     exists jitter t : Q,
       Number_mul (Finite (Math_random env (randoms s + k))) (Finite 500) = Finite jitter
       /\ (0 <= jitter)%Q /\ (jitter < 500)%Q
       /\ d = Number_add (Finite (backoff_base (Z.of_nat k))) (Finite jitter)
       /\ d = Finite t
       /\ (backoff_base (Z.of_nat k) <= t)%Q /\ (t <= backoff_base (Z.of_nat k) + 500)%Q
       /\ (backoff_base (Z.of_nat k) == inject_Z (2 ^ Z.of_nat k * 1000))%Q)
  /\ (forall k, (0 <= k)%Z -> (backoff_base (k + 1) == 2 * backoff_base k)%Q)
  /\ ((1 <= maxRetries)%Z -> evs = call_events url options (sleeps evs)).
Proof.
  intros Hbound Hrand. cbv zeta.
  destruct (Z_le_gt_dec 1 maxRetries) as [Hmax | Hmax].
  - destruct (exponentialBackoffFetch_effects url options maxRetries env s Hmax)
      as (ds & Htr & Hlen & _ & _ & _ & _ & Hd).
    rewrite (events_since_app _ _ _ Htr), sleeps_call_events.
    split; [| split; [intros k Hk; apply backoff_base_double, Hk | reflexivity]].
    intros k d Hk. rewrite (Hd k d Hk).
    assert (Hlt : (k < length ds)%nat) by (apply lookup_lt_is_Some; eauto).
    destruct (backoff_delay_bounds (0 + Z.of_nat k) (Math_random env (randoms s + k)))
      as (jitter & t & Hj & H0 & H1 & Hsum & Ht & Hlo & Hhi); [lia | apply Hrand |].
    rewrite Z.add_0_l in *.
    exists jitter, t. repeat (split; [assumption |]). apply backoff_base_value.
  - unfold exponentialBackoffFetch.
    replace (Z.to_nat maxRetries) with 0%nat by lia. simpl.
    unfold events_since. rewrite drop_all. simpl.
    split; [| split; [intros k Hk; apply backoff_base_double, Hk | lia]].
    intros k d Hk. destruct k; discriminate.
Qed.

Lemma backoff_schedule_witness :
  let env := sample_env None
               [Resolved response_429; Rejected network_error;
                Resolved (response_200 (JStr "{}"))] [] in
  let evs := events_since (start (idle []))
               (snd (exponentialBackoffFetch "u" sample_request 3 env (start (idle [])))) in
  (forall i, random_value (Math_random env i))
  /\ (exists t0 t1, sleeps evs = [Finite t0; Finite t1]
                    /\ (t0 == 1125)%Q /\ (t1 == 2125)%Q)
  /\ exists jitter t : Q,
       Number_mul (Finite (1 # 4)) (Finite 500) = Finite jitter
       /\ (0 <= jitter)%Q /\ (jitter < 500)%Q
       /\ backoff_delay 1 (1 # 4) = Number_add (Finite (backoff_base 1)) (Finite jitter)
       /\ backoff_delay 1 (1 # 4) = Finite t
       /\ (backoff_base 1 <= t)%Q /\ (t <= backoff_base 1 + 500)%Q
       /\ (backoff_base 1 == inject_Z (2 ^ 1 * 1000))%Q.
Proof.
  cbv zeta.
  assert (Hr : forall i, random_value (Math_random (sample_env None
               [Resolved response_429; Rejected network_error;
                Resolved (response_200 (JStr "{}"))] []) i)).
  { intros i. simpl. repeat split; vm_compute; (reflexivity || discriminate). }
  split; [exact Hr |].
  split; [do 2 eexists; split; [vm_compute; reflexivity | split; vm_compute; reflexivity] |].
  pose proof (backoff_schedule "u" sample_request 3 _ (start (idle [])) ltac:(lia) Hr) as H.
  cbv zeta in H. destruct H as (H & _ & _).
  destruct (H 1%nat (backoff_delay 1 (1 # 4))) as (j & t & Hj); [vm_compute; reflexivity |].
  exists j, t. exact Hj.
Defined.

(** C8 (where the claim fails).  When [Math.random()] returns
    [1 - 2^-53], the largest binary64 value below 1, the jitter
    [Math.random() * 500] is below 500 but the sum [1000 + jitter] rounds
    to 1500: the pause after attempt 0 is [2^0 * 1000] plus exactly 500, not
    plus a term of [[0, 500)]. *)
Lemma jitter_rounds_up_to_500 :
  let r := (1 - 2 ^ (-53))%Q in
  let env := with_random r
               (sample_env None
                  [Resolved response_429; Resolved (response_200 (JStr "{}"))] []) in
  let evs := events_since (start (idle []))
               (snd (exponentialBackoffFetch "u" sample_request default_maxRetries env
                       (start (idle [])))) in
  random_value r
  /\ exists t : Q,
       sleeps evs = [Finite t]
       /\ (t == backoff_base 0 + 500)%Q
       /\ ~ (exists jitter : Q,
               (0 <= jitter)%Q /\ (jitter < 500)%Q /\ (t == backoff_base 0 + jitter)%Q).
Proof.
  cbv zeta. split.
  - repeat split; vm_compute; (reflexivity || discriminate).
  - eexists. split; [vm_compute; reflexivity |].
    assert (Ht : ((1500 # 1) == backoff_base 0 + 500)%Q) by (vm_compute; reflexivity).
    split; [vm_compute; reflexivity |].
    intros (jitter & H0 & H1 & Hj).
    assert (Hb : (backoff_base 0 == 1000)%Q) by (vm_compute; reflexivity).
    revert Hj. match goal with |- (?t == _)%Q -> _ =>
      assert (Hv : (t == 1500)%Q) by (vm_compute; reflexivity) end.
    intros Hj. lra.
Qed.

(** ** The selection handlers *)

(** C5. When the selection plus the newly chosen image files would exceed
    the cap, [handleFileChange] completes normally, leaves the selection and
    the results as they were (nothing is published), and sets the limit
    message, which the render shows:
    [Maximum of 25 photos allowed. Please select fewer files.] *)
Theorem handleFileChange_over_cap files env s :
  (Z.of_nat (length (selectedFiles (app s)))
   + Z.of_nat (length (List.filter is_image files)) > MAX_FILES)%Z ->
  fst (handleFileChange files env s) = Normal tt
  /\ selectedFiles (app (snd (handleFileChange files env s))) = selectedFiles (app s)
  /\ results (app (snd (handleFileChange files env s))) = results (app s)
  /\ loading (app (snd (handleFileChange files env s))) = loading (app s)
  /\ app_error (app (snd (handleFileChange files env s))) = Some limit_message
  /\ error_box (app (snd (handleFileChange files env s)))
     = Some "Maximum of 25 photos allowed. Please select fewer files."
  /\ published (events_since s (snd (handleFileChange files env s))) = [].
Proof.
  intros Hover. unfold handleFileChange, bind, get_app; simpl.
  destruct (Z.gtb_spec (Z.of_nat (length (selectedFiles (app s)))
                        + Z.of_nat (length (List.filter is_image files))) MAX_FILES)
    as [_ | Hle]; [| lia].
  simpl. repeat split; try reflexivity.
  unfold events_since; simpl. rewrite <- app_assoc, drop_app_length. reflexivity.
Qed.

Lemma handleFileChange_over_cap_witness :
  let s := start (idle (replicate 25 (photo "a"))) in
  let s' := snd (handleFileChange [photo "b"; photo "c"] (sample_env None [] []) s) in
  selectedFiles (app s') = replicate 25 (photo "a")
  /\ results (app s') = []
  /\ error_box (app s') = Some "Maximum of 25 photos allowed. Please select fewer files.".
Proof.
  cbv zeta.
  destruct (handleFileChange_over_cap [photo "b"; photo "c"] (sample_env None [] [])
              (start (idle (replicate 25 (photo "a")))))
    as (_ & Hsel & Hres & _ & _ & Hbox & _); [vm_compute; reflexivity |].
  rewrite Hsel, Hres, Hbox. repeat split.
Defined.

(** Filtering out one index is deleting that position. *)
Lemma filter_index_delete {A} (l : list A) (from idx : Z) :
  filter_index (fun i => negb (i =? idx)%Z) from l
  = if (from <=? idx)%Z
    then (take (Z.to_nat (idx - from)) l ++ drop (S (Z.to_nat (idx - from))) l)%list
    else l.
Proof.
  revert from. induction l as [| x l IH]; intros from; simpl.
  - destruct (from <=? idx)%Z; [rewrite take_nil |]; reflexivity.
  - rewrite IH.
    destruct (Z.eqb_spec from idx) as [-> | Hne]; simpl.
    + rewrite Z.sub_diag. simpl.
      destruct (Z.leb_spec (idx + 1) idx); [lia |].
      destruct (Z.leb_spec idx idx); [| lia]. rewrite drop_0. reflexivity.
    + destruct (Z.leb_spec from idx), (Z.leb_spec (from + 1) idx); try lia.
      * replace (Z.to_nat (idx - from)) with (S (Z.to_nat (idx - (from + 1)))) by lia.
        reflexivity.
      * reflexivity.
Qed.

(** C9. [removeFile] never throws.  When it takes effect (no run in
    progress) the results are cleared and the selection loses exactly the
    file at the given position, the others keeping their order; an index
    that designates no file leaves the selection as it was. *)
Theorem removeFile_clears_results indexToRemove env s :
  fst (removeFile indexToRemove env s) = Normal tt
  /\ (loading (app s) = false ->
      results (app (snd (removeFile indexToRemove env s))) = []
      /\ selectedFiles (app (snd (removeFile indexToRemove env s)))
         = (if (0 <=? indexToRemove)%Z
            then (take (Z.to_nat indexToRemove) (selectedFiles (app s))
                  ++ drop (S (Z.to_nat indexToRemove)) (selectedFiles (app s)))%list
            else selectedFiles (app s))
      /\ loading (app (snd (removeFile indexToRemove env s))) = false).
Proof.
  unfold removeFile, bind, get_app; simpl.
  destruct (loading (app s)) eqn:Hl; simpl.
  - split; [reflexivity | discriminate].
  - split; [reflexivity |]. intros _.
    rewrite filter_index_delete, Z.sub_0_r, Hl. repeat split.
Qed.

Lemma removeFile_clears_results_witness :
  let a := {| selectedFiles := [photo "a"; photo "b"; photo "c"];
              results := map initial_result
                           [preprocessing_failed (photo "a") network_error];
              loading := false; app_error := None |} in
  results (app (snd (removeFile 1 (sample_env None [] []) (start a)))) = []
  /\ selectedFiles (app (snd (removeFile 1 (sample_env None [] []) (start a))))
     = [photo "a"; photo "c"].
Proof.
  cbv zeta.
  destruct (removeFile_clears_results 1 (sample_env None [] [])
              (start {| selectedFiles := [photo "a"; photo "b"; photo "c"];
                        results := map initial_result
                                     [preprocessing_failed (photo "a") network_error];
                        loading := false; app_error := None |}))
    as (_ & H).
  destruct H as (Hres & Hsel & _); [reflexivity |].
  rewrite Hres, Hsel. split; reflexivity.
Defined.

(** ** Preprocessing *)

(** Preprocessing a file never throws; its result depends on the answers
    given for that file only, and its effects are the reads of that file. *)
Lemma preprocess_run v f env s :
  preprocess v f env s
  = (Normal (preprocessed v env f (reads s) (exifs s)), after_preprocess v f s).
Proof.
  unfold preprocessed, preprocess, after_preprocess, preprocess_events, exif_step,
    try_catch, bind, settled, toBase64, ExifReader_load_file, lift, ask, ret, probe.
  destruct v; simpl.
  - destruct (FileReader_result env (reads s)) as [b | e]; simpl;
      destruct (ExifReader_load env (exifs s)) as [t | e']; simpl;
      try destruct (exif_metadata env f _ _) as [pf | e'']; simpl;
      rewrite <- ?app_assoc, ?Nat.add_1_r; reflexivity.
  - destruct (FileReader_result env (reads s)) as [b | e]; simpl;
      try destruct (lastModified f =? 0)%Z; simpl; rewrite ?Nat.add_0_r; reflexivity.
  - destruct (FileReader_result env (reads s)) as [b | e]; simpl;
      rewrite ?Nat.add_0_r; reflexivity.
Qed.

Lemma exif_metadata_cases env f b tags :
  match exif_metadata env f b tags with
  | Normal pf => pf_file pf = f /\ pf_error pf = None /\ base64Data pf = resolved b
  | Abrupt _ => True
  end.
Proof.
  unfold exif_metadata.
  destruct (GPSLatitude tags) as [lat |], (GPSLongitude tags) as [lng |];
    try destruct (toFixed env lat); try destruct (toFixed env lng); simpl; auto.
Qed.

Lemma preprocessed_file v env f k x : pf_file (preprocessed v env f k x) = f.
Proof.
  unfold preprocessed, preprocess, try_catch, bind, settled, toBase64,
    ExifReader_load_file, lift, ask, ret, probe.
  destruct v; simpl.
  - destruct (FileReader_result env k) as [b | e]; simpl;
      destruct (ExifReader_load env x) as [t | e']; simpl; try reflexivity;
      match goal with
      | |- context [exif_metadata env f ?b ?t] =>
          pose proof (exif_metadata_cases env f b t) as H;
          destruct (exif_metadata env f b t); [apply H | reflexivity]
      end.
  - destruct (FileReader_result env k) as [b | e]; simpl;
      try destruct (lastModified f =? 0)%Z; reflexivity.
  - destruct (FileReader_result env k) as [b | e]; reflexivity.
Qed.

Lemma message_or_nonempty e fallback :
  fallback <> "" -> String.eqb (message_or e fallback) "" = false.
Proof.
  intros Hf. unfold message_or.
  destruct (message e) as [m |]; [destruct (String.eqb m "") eqn:E; [| exact E] |];
    apply String.eqb_neq, Hf.
Qed.

(** A file whose bytes cannot be read yields an item carrying an error. *)
Lemma unreadable_has_error v env f k x e :
  FileReader_result env k = Abrupt e ->
  preprocessed v env f k x = preprocessing_failed f e.
Proof.
  intros Hk.
  unfold preprocessed, preprocess, try_catch, bind, settled, toBase64,
    ExifReader_load_file, lift, ask, ret, probe.
  destruct v; simpl; rewrite Hk; simpl; try reflexivity.
  destruct (ExifReader_load env x); reflexivity.
Qed.

Lemma preprocessing_failed_has_error f e : has_error (preprocessing_failed f e) = true.
Proof.
  unfold has_error, preprocessing_failed; simpl.
  rewrite message_or_nonempty; [reflexivity | discriminate].
Qed.

(** An item either carries an error (and then nothing else), or what
    [toBase64] resolved with for the result the reader gave for it. *)
Lemma preprocessed_cases v env f k x :
  (exists e, preprocessed v env f k x = preprocessing_failed f e)
  \/ (pf_error (preprocessed v env f k x) = None
      /\ exists result, FileReader_result env k = Normal result
            /\ base64Data (preprocessed v env f k x) = resolved (dataUrl_payload result)).
Proof.
  unfold preprocessed, preprocess, try_catch, bind, settled, toBase64,
    ExifReader_load_file, lift, ask, ret, probe.
  destruct v; simpl.
  - destruct (FileReader_result env k) as [b | e]; simpl;
      destruct (ExifReader_load env x) as [t | e']; simpl; eauto;
      match goal with
      | |- context [exif_metadata env f ?d ?t] =>
          pose proof (exif_metadata_cases env f d t) as H;
          destruct (exif_metadata env f d t); [right | eauto]
      end; (split; [apply H | exists b; split; [reflexivity | apply H]]).
  - destruct (FileReader_result env k) as [b | e]; simpl;
      try destruct (lastModified f =? 0)%Z; simpl; eauto.
  - destruct (FileReader_result env k) as [b | e]; simpl; eauto.
Qed.

(** The state after all files have been preprocessed. *)
Lemma preprocess_all_run v files : forall env s,
  exists s',
    preprocess_all v files env s
    = (Normal (preprocessed_from v env files (reads s) (exifs s)), s')
    /\ app s' = app s /\ fetches s' = fetches s
    /\ exists evs, trace s' = (trace s ++ evs)%list
                   /\ published evs = [] /\ sent evs = [] /\ files_read evs = files.
Proof.
  induction files as [| f rest IH]; intros env s.
  - exists s. simpl. repeat split; try reflexivity.
    exists []. rewrite app_nil_r. repeat split.
  - simpl. unfold bind. rewrite preprocess_run.
    destruct (IH env (after_preprocess v f s))
      as (s' & Hrun & Happ & Hf & evs & Htr & Hp & Hs & Hr).
    rewrite Hrun. exists s'. simpl. split; [reflexivity |].
    split; [exact Happ |]. split; [exact Hf |].
    exists (preprocess_events v f ++ evs)%list.
    rewrite Htr. simpl. rewrite <- app_assoc. split; [reflexivity |].
    destruct v; simpl; rewrite Hp, Hs, Hr; repeat split.
Qed.

Lemma preprocessed_from_length v env files : forall k x,
  length (preprocessed_from v env files k x) = length files.
Proof.
  induction files as [| f rest IH]; intros k x; simpl; [| rewrite IH]; reflexivity.
Qed.

Lemma preprocessed_from_lookup v env files : forall k x j f,
  files !! j = Some f ->
  preprocessed_from v env files k x !! j
  = Some (preprocessed v env f (k + j) (x + j * exif_step v)).
Proof.
  induction files as [| f0 rest IH]; intros k x j f Hj; [discriminate |].
  destruct j as [| j]; simpl in *.
  - inversion Hj. rewrite !Nat.add_0_r. reflexivity.
  - rewrite (IH _ _ _ _ Hj). do 2 f_equal; lia.
Qed.

Lemma preprocessed_from_files v env files : forall k x,
  map pf_file (preprocessed_from v env files k x) = files.
Proof.
  induction files as [| f rest IH]; intros k x; simpl; [reflexivity |].
  rewrite preprocessed_file, IH. reflexivity.
Qed.

(** ** One inference step *)

Lemma error_message_of_truthy err : truthy (error_message_of err) = true.
Proof.
  unfold error_message_of, or_else.
  destruct (or_opt _ _) as [v |]; [destruct (truthy v) eqn:E; [exact E |] |]; reflexivity.
Qed.

Lemma truthy_opt_default o : truthy_opt o = true -> truthy (default JNull o) = true.
Proof.
  destruct o; simpl; [trivial | discriminate].
Qed.

Ltac settle_with_error :=
  eexists JNull, _; split; [| reflexivity];
  left; split; [reflexivity |];
  first [ apply error_message_of_truthy
        | reflexivity
        | simpl; rewrite message_or_nonempty; [reflexivity | discriminate] ].

(** The response a call returns is the answer to its last request. *)
Lemma attempts_from_returns n url options maxRetries env : forall attempt s r,
  fst (attempts_from n url options attempt maxRetries env s) = Normal (Some r) ->
  fetch_reply env (pred (fetches (snd (attempts_from n url options attempt maxRetries env s))))
  = Resolved r
  /\ ok r = true.
Proof.
  induction n as [| n IH]; intros attempt s r; [discriminate |].
  rewrite attempts_from_S, attempt_body_spec. cbv zeta.
  destruct (fetch_reply env (fetches s)) as [r0 | e0] eqn:Hreply;
    [destruct (ok r0) eqn:Hok |].
  - simpl. intros H. inversion H; subst r0. split; [exact Hreply | exact Hok].
  - destruct (attempt =? maxRetries - 1)%Z; [discriminate | apply IH].
  - destruct (attempt =? maxRetries - 1)%Z; [discriminate | apply IH].
Qed.

(** The [try]/[catch] of an iteration always yields a new list: the item
    at [i] brought to a terminal shape, its data, if any, being parsed from
    the answer to the last request of the retrying call.  Its only effects
    are those of that call. *)
Lemma infer_item_caught url pf i cur env s :
  let s' := snd (exponentialBackoffFetch url (request_for env pf) default_maxRetries env s) in
  exists d e,
    terminal_shape env (pred (fetches s')) d e
    /\ try_catch (infer_item url pf i cur)
         (fun fileError =>
            ret (alter (settle_item JNull
                          (JStr (message_or fileError "File processing failed")))
                       i cur)) env s
       = (Normal (alter (settle_item d e) i cur), s').
Proof.
  cbv zeta.
  pose proof (attempts_from_returns (Z.to_nat default_maxRetries) url (request_for env pf)
                default_maxRetries env 0 s) as Hret.
  fold (exponentialBackoffFetch url (request_for env pf) default_maxRetries) in Hret.
  unfold try_catch, infer_item, bind, ask, lift, ret, throw; simpl.
  destruct (exponentialBackoffFetch url (request_for env pf) default_maxRetries env s)
    as [[[r |] | e0] s1]; simpl in *; try settle_with_error.
  destruct (Hret r eq_refl) as [Hreply Hok].
  destruct (json r) as [apiResult | e1] eqn:Hjson; simpl; try settle_with_error.
  destruct (get_prop apiResult "candidates") as [candidates | e2] eqn:Hcand; simpl;
    try settle_with_error.
  change (get_prop_opt
            (get_first_opt
               (get_prop_opt (get_prop_opt (get_first_opt candidates) "content") "parts"))
            "text") with (candidate_text candidates).
  destruct (candidate_text candidates) as [jsonText |] eqn:Htext; simpl.
  - destruct (truthy jsonText) eqn:Htruthy; simpl.
    + destruct (JSON_parse env jsonText) as [parsedJson | e3] eqn:Hparse; simpl;
        try settle_with_error.
      eexists parsedJson, JNull. split; [| reflexivity].
      right. split; [reflexivity |].
      exists jsonText. split; [| exact Hparse].
      exists r, apiResult, candidates. repeat split; assumption.
    + destruct (get_prop apiResult "error") as [err | e4]; simpl; settle_with_error.
  - destruct (get_prop apiResult "error") as [err | e4]; simpl; settle_with_error.
Qed.

(** An iteration for an item still processing: one call of the retrying
    helper, then the publication of the list with that item settled. *)
Lemma infer_and_publish_run url pf i cur env s r :
  cur !! i = Some r -> processing r = true ->
  exists cur' s' ds,
    infer_and_publish url pf i cur env s = (Normal cur', s')
    /\ settles env cur cur'
    /\ (exists d e, terminal_shape env (fetches s + length ds) d e
                    /\ cur' = alter (settle_item d e) i cur)
    /\ trace s' = (trace s ++ call_events url (request_for env pf) ds
                           ++ [EvSetResults cur'])%list
    /\ (length ds < 3)%nat
    /\ app s' = with_results (app s) cur'
    /\ reads s' = reads s
    /\ fetches s' = (fetches s + S (length ds))%nat.
Proof.
  intros Hi Hproc. unfold infer_and_publish, bind.
  destruct (infer_item_caught url pf i cur env s) as (d & e & Hshape & Hrun).
  rewrite Hrun.
  destruct (exponentialBackoffFetch_effects url (request_for env pf) default_maxRetries
              env s) as (ds & Htr & Hlen & Happ & Hrd & _ & Hf & _);
    [unfold default_maxRetries; lia |].
  rewrite Hf in Hshape. replace (pred (fetches s + S (length ds)))
    with (fetches s + length ds)%nat in Hshape by lia.
  eexists _, _, ds. split; [reflexivity |].
  split; [exact (settles_at env cur _ i r _ d e Hi Hproc Hshape eq_refl) |].
  split; [exists d, e; split; [exact Hshape | reflexivity] |].
  simpl. rewrite Htr, Happ, Hrd, Hf, <- app_assoc.
  repeat split. exact Hlen.
Qed.

(** ** The inference loop *)

Lemma published_app t1 t2 : published (t1 ++ t2) = (published t1 ++ published t2)%list.
Proof.
  induction t1 as [| [] t1 IH]; simpl; rewrite ?IH; reflexivity.
Qed.

Lemma sent_app t1 t2 : sent (t1 ++ t2) = (sent t1 ++ sent t2)%list.
Proof.
  induction t1 as [| [] t1 IH]; simpl; rewrite ?IH; reflexivity.
Qed.

Lemma files_read_app t1 t2 : files_read (t1 ++ t2) = (files_read t1 ++ files_read t2)%list.
Proof.
  induction t1 as [| [] t1 IH]; simpl; rewrite ?IH; reflexivity.
Qed.

Lemma call_events_projections url options ds :
  published (call_events url options ds) = []
  /\ files_read (call_events url options ds) = []
  /\ sent (call_events url options ds) = replicate (S (length ds)) (body options).
Proof.
  unfold call_events. induction ds as [| d ds (IHp & IHr & IHs)]; simpl; [auto |].
  rewrite IHp, IHr, IHs. auto.
Qed.

Lemma final_of_cons {A} (x y : A) l : final_of x (y :: l) = final_of y l.
Proof.
  unfold final_of. destruct l as [| z l]; [reflexivity |].
  rewrite last_cons_cons. destruct (last (z :: l)) eqn:E; [reflexivity |].
  apply last_None in E. discriminate.
Qed.

(** The loop over the items from index [i] on, all still in their initial
    state in [cur]. *)
Lemma inference_loop_run url pending : forall i cur env s,
  (forall k pf, pending !! k = Some pf -> cur !! (i + k)%nat = Some (initial_result pf)) ->
  exists pubs counts evs s',
    inference_loop url pending i cur env s = (Normal (final_of cur pubs), s')
    /\ chain (settles env) cur pubs
    /\ trace s' = (trace s ++ evs)%list
    /\ published evs = pubs
    /\ sent evs = payloads_sent env pending counts
    /\ files_read evs = []
    /\ Forall2 sent_count_ok pending counts
    /\ results_replaced (app s) (app s') (final_of (results (app s)) pubs)
    /\ fetches s' = (fetches s + sum_list counts)%nat
    /\ (forall j, (j < i)%nat -> final_of cur pubs !! j = cur !! j)
    /\ (forall k pf, pending !! k = Some pf ->
          exists r, final_of cur pubs !! (i + k)%nat = Some r
                    /\ item_outcome env (last_request (fetches s) counts k) pf r).
Proof.
  induction pending as [| pf rest IH]; intros i cur env s Hinit.
  - exists [], [], [], s. simpl. rewrite app_nil_r.
    repeat split; try reflexivity; try constructor; try lia.
    intros k pf Hk. discriminate.
  - pose proof (Hinit 0%nat pf eq_refl) as Hi. rewrite Nat.add_0_r in Hi.
    simpl. destruct (has_error pf) eqn:Herr.
    + destruct (IH (S i) cur env s) as
        (pubs & counts & evs & s' & Hrun & Hchain & Htr & Hpub & Hsent & Hread & Hcnt
         & Happ & Hfetch & Hbefore & Hafter).
      { intros k pf' Hk. rewrite <- (Hinit (S k) pf' Hk). f_equal. lia. }
      exists pubs, (0%nat :: counts), evs, s'.
      repeat split; try assumption; try apply Happ.
      * constructor; [unfold sent_count_ok; rewrite Herr; reflexivity | exact Hcnt].
      * intros j Hj. apply Hbefore. lia.
      * intros [| k] pf' Hk; simpl in Hk.
        -- inversion Hk; subst pf'. exists (initial_result pf).
           rewrite Nat.add_0_r, Hbefore, Hi by lia.
           split; [reflexivity |]. unfold item_outcome.
           split; [simpl; rewrite Herr; reflexivity |].
           split; [reflexivity | congruence].
        -- replace (i + S k)%nat with (S i + k)%nat by lia.
           replace (last_request (fetches s) (0%nat :: counts) (S k))
             with (last_request (fetches s) counts k) by reflexivity.
           apply Hafter, Hk.
    + assert (Hproc : processing (initial_result pf) = true)
        by (simpl; rewrite Herr; reflexivity).
      unfold bind.
      destruct (infer_and_publish_run url pf i cur env s _ Hi Hproc)
        as (cur' & s1 & ds & Hstep & Hsettle & (d & e & Hshape & Hcur') & Htr1 & Hlen
            & Happ1 & _ & Hfetch1).
      rewrite Hstep.
      destruct (IH (S i) cur' env s1) as
        (pubs & counts & evs & s' & Hrun & Hchain & Htr & Hpub & Hsent & Hread & Hcnt
         & Happ & Hfetch & Hbefore & Hafter).
      { intros k pf' Hk. rewrite Hcur', list_lookup_alter_ne by lia.
        rewrite <- (Hinit (S k) pf' Hk). f_equal. lia. }
      destruct (call_events_projections url (request_for env pf) ds) as (Hp0 & Hr0 & Hs0).
      exists (cur' :: pubs), (S (length ds) :: counts),
        (call_events url (request_for env pf) ds ++ [EvSetResults cur'] ++ evs)%list, s'.
      rewrite !final_of_cons.
      split; [exact Hrun |].
      split; [split; assumption |].
      split; [rewrite Htr, Htr1, <- !app_assoc; reflexivity |].
      split; [rewrite published_app, Hp0; simpl; rewrite Hpub; reflexivity |].
      split; [rewrite sent_app, Hs0; simpl; rewrite Hsent; reflexivity |].
      split; [rewrite files_read_app, Hr0; simpl; exact Hread |].
      split; [constructor; [unfold sent_count_ok; rewrite Herr; lia | exact Hcnt] |].
      split.
      { destruct Happ as (H1 & H2 & H3 & H4). rewrite Happ1 in *. simpl in *.
        repeat split; assumption. }
      split; [rewrite Hfetch, Hfetch1; simpl; lia |].
      split.
      { intros j Hj. rewrite Hbefore by lia. rewrite Hcur'.
        apply list_lookup_alter_ne. lia. }
      intros [| k] pf' Hk; simpl in Hk.
      * inversion Hk; subst pf'. exists (settle_item d e (initial_result pf)).
        rewrite Nat.add_0_r, Hbefore by lia.
        rewrite Hcur', list_lookup_alter_eq, Hi.
        split; [reflexivity |]. unfold item_outcome.
        split; [reflexivity |]. split; [congruence |].
        intros _. exists d, e. split; [| reflexivity].
        replace (last_request (fetches s) (S (length ds) :: counts) 0)
          with (fetches s + length ds)%nat by (unfold last_request; simpl; lia).
        exact Hshape.
      * replace (i + S k)%nat with (S i + k)%nat by lia.
        replace (last_request (fetches s) (S (length ds) :: counts) (S k))
          with (last_request (fetches s1) counts k)
          by (unfold last_request; rewrite Hfetch1; simpl; lia).
        apply Hafter, Hk.
Qed.

(** ** What a settling step preserves *)

Lemma settle_item_file d e r : file (settle_item d e r) = file r.
Proof. reflexivity. Qed.

Lemma settles_files env P P' : settles env P P' -> map file P' = map file P.
Proof.
  intros [j r k0 d e _ _ _ ->]. apply list_eq. intros k.
  rewrite !list_lookup_fmap. destruct (decide (j = k)) as [-> | Hne].
  - rewrite list_lookup_alter_eq. destruct (P !! k); reflexivity.
  - rewrite list_lookup_alter_ne by exact Hne. reflexivity.
Qed.

Lemma settles_length env P P' : settles env P P' -> length P' = length P.
Proof.
  intros [j r k0 d e _ _ _ ->]. apply length_alter.
Qed.

Lemma count_terminal_alter d e : forall P j r,
  P !! j = Some r -> processing r = true ->
  count_terminal (alter (settle_item d e) j P) = S (count_terminal P).
Proof.
  unfold count_terminal.
  induction P as [| x P IH]; intros j r Hj Hproc; [discriminate |].
  destruct j as [| j].
  - simpl in *. inversion Hj; subst x. unfold terminal at 2. rewrite Hproc. reflexivity.
  - specialize (IH j r Hj Hproc). change (alter (settle_item d e) (S j) (x :: P))
      with (x :: alter (settle_item d e) j P).
    simpl. destruct (terminal x); simpl; rewrite IH; reflexivity.
Qed.

Lemma settles_count env P P' :
  settles env P P' -> count_terminal P' = S (count_terminal P).
Proof.
  intros [j r k0 d e Hj Hproc _ ->]. exact (count_terminal_alter d e P j r Hj Hproc).
Qed.

(** An item that is terminal is not the one a step settles. *)
Lemma settles_keeps_terminal env P P' j r :
  settles env P P' -> P !! j = Some r -> processing r = false -> P' !! j = Some r.
Proof.
  intros [i r0 k0 d e Hi Hproc _ ->] Hj Hterm.
  destruct (decide (i = j)) as [-> | Hne].
  - rewrite Hj in Hi. inversion Hi; subst r0. congruence.
  - rewrite list_lookup_alter_ne by exact Hne. exact Hj.
Qed.

(** Consecutive elements of a chain are related. *)
Lemma chain_lookup {A} (R : A -> A -> Prop) : forall l x k a b,
  chain R x l -> (x :: l) !! k = Some a -> (x :: l) !! S k = Some b -> R a b.
Proof.
  induction l as [| y l IH]; intros x k a b Hc Ha Hb.
  - destruct k; discriminate.
  - destruct Hc as [Hxy Hc]. destruct k as [| k]; simpl in *.
    + inversion Ha; inversion Hb; subst. exact Hxy.
    + exact (IH y k a b Hc Ha Hb).
Qed.

Lemma chain_files env : forall pubs P0 P,
  chain (settles env) P0 pubs -> P ∈ P0 :: pubs -> map file P = map file P0.
Proof.
  induction pubs as [| P1 pubs IH]; intros P0 P Hc Hin.
  - apply list_elem_of_singleton in Hin. subst. reflexivity.
  - destruct Hc as [H01 Hc]. apply elem_of_cons in Hin as [-> | Hin]; [reflexivity |].
    rewrite (IH P1 P Hc Hin). exact (settles_files env _ _ H01).
Qed.

Lemma chain_keeps_terminal env : forall pubs P0 P j r,
  chain (settles env) P0 pubs -> P0 !! j = Some r -> processing r = false ->
  P ∈ P0 :: pubs -> P !! j = Some r.
Proof.
  induction pubs as [| P1 pubs IH]; intros P0 P j r Hc Hj Hterm Hin.
  - apply list_elem_of_singleton in Hin. subst. exact Hj.
  - destruct Hc as [H01 Hc]. apply elem_of_cons in Hin as [-> | Hin]; [exact Hj |].
    apply (IH P1 P j r Hc); [| exact Hterm | exact Hin].
    exact (settles_keeps_terminal env _ _ _ _ H01 Hj Hterm).
Qed.

Lemma final_of_in {A} (x : A) l : final_of x l ∈ x :: l.
Proof.
  revert x. induction l as [| y l IH]; intros x.
  - apply list_elem_of_here.
  - rewrite final_of_cons. apply list_elem_of_further, IH.
Qed.

(** ** The run *)

(** A run that has passed the pre-run checks. *)
Lemma run_analysis_run v files env s :
  exists pubs counts evs s',
    run_analysis v files env s = (Normal tt, s')
    /\ chain (settles env)
         (map initial_result (preprocessed_from v env files (reads s) (exifs s))) pubs
    /\ trace s' = (trace s ++ evs)%list
    /\ published evs
       = map initial_result (preprocessed_from v env files (reads s) (exifs s)) :: pubs
    /\ sent evs
       = payloads_sent env (preprocessed_from v env files (reads s) (exifs s)) counts
    /\ files_read evs = files
    /\ Forall2 sent_count_ok (preprocessed_from v env files (reads s) (exifs s)) counts
    /\ selectedFiles (app s') = selectedFiles (app s)
    /\ loading (app s') = false
    /\ app_error (app s') = None
    /\ results (app s')
       = final_of (map initial_result (preprocessed_from v env files (reads s) (exifs s)))
           pubs
    /\ fetches s' = (fetches s + sum_list counts)%nat
    /\ forall k pf,
         preprocessed_from v env files (reads s) (exifs s) !! k = Some pf ->
         exists r,
           final_of (map initial_result (preprocessed_from v env files (reads s) (exifs s)))
             pubs !! k = Some r
           /\ item_outcome env (last_request (fetches s) counts k) pf r.
Proof.
  unfold run_analysis, bind, setLoading, setError, setResults, with_app, emit, ask, bind.
  simpl.
  match goal with
  | |- context [preprocess_all v files env ?s0] =>
      destruct (preprocess_all_run v files env s0)
        as (s1 & Hpre & Happ1 & Hf1 & evs1 & Htr1 & Hp1 & Hs1 & Hr1)
  end.
  simpl in *. rewrite Hpre. simpl.
  set (pfs := preprocessed_from v env files (reads s) (exifs s)) in *.
  match goal with
  | |- context [inference_loop ?url pfs 0 ?cur env ?s2] =>
      destruct (inference_loop_run url pfs 0 cur env s2)
        as (pubs & counts & evs2 & s3 & Hloop & Hchain & Htr2 & Hp2 & Hs2 & Hr2 & Hcnt
            & (Hsel & Hload & Herr & Hres) & Hfetch & _ & Hitems)
  end.
  { intros k pf Hk. rewrite list_lookup_fmap. simpl. rewrite Hk. reflexivity. }
  simpl in *. rewrite Hf1 in Hfetch, Hitems. rewrite Hloop. simpl.
  exists pubs, counts,
    ([EvSetLoading true; EvSetError None] ++ evs1
     ++ [EvSetResults (map initial_result pfs)] ++ evs2 ++ [EvSetLoading false])%list.
  eexists. split; [reflexivity |]. simpl.
  rewrite Htr2, Htr1, Hsel, Herr, Happ1.
  change (EvSetResults (map initial_result pfs) :: evs2 ++ [EvSetLoading false])%list
    with ([EvSetResults (map initial_result pfs)] ++ evs2 ++ [EvSetLoading false])%list.
  rewrite !published_app, !sent_app, !files_read_app, Hp1, Hs1, Hr1, Hp2, Hs2, Hr2.
  simpl. rewrite <- !app_assoc, !app_nil_r. simpl.
  repeat split; try assumption; reflexivity.
Qed.

(** The three ways an invocation can go: nothing happens (no file, or a
    run in progress), the credential check blocks it, or the run starts. *)
Lemma analyzeImages_cases v env s :
  (analyzeImages v env s = (Normal tt, s)
   /\ (selectedFiles (app s) = [] \/ loading (app s) = true))
  \/ (analyzeImages v env s = setError (Some key_missing_message) env s
      /\ selectedFiles (app s) <> [] /\ loading (app s) = false
      /\ checks_credential v = true /\ credential v env = "")
  \/ (analyzeImages v env s = run_analysis v (selectedFiles (app s)) env s
      /\ selectedFiles (app s) <> [] /\ loading (app s) = false
      /\ (checks_credential v = true -> credential v env <> "")).
Proof.
  unfold analyzeImages, bind, get_app, ask; simpl.
  destruct (selectedFiles (app s)) as [| f files] eqn:Hsel; simpl; [left; auto |].
  destruct (loading (app s)) eqn:Hload; simpl; [left; auto |].
  right. destruct (checks_credential v) eqn:Hchk; simpl.
  - destruct (String.eqb_spec (credential v env) "") as [Hk | Hk].
    + left. repeat split; try assumption. discriminate.
    + right. split; [reflexivity |]. repeat split; [discriminate | intros _; exact Hk].
  - right. split; [reflexivity |]. repeat split; discriminate.
Qed.

Lemma analyzeImages_started v env s :
  selectedFiles (app s) <> [] -> loading (app s) = false ->
  (checks_credential v = true -> credential v env <> "") ->
  analyzeImages v env s = run_analysis v (selectedFiles (app s)) env s.
Proof.
  intros Hsel Hload Hkey.
  destruct (analyzeImages_cases v env s)
    as [(_ & [H | H]) | [(_ & _ & _ & Hc & Hk) | (Hrun & _)]];
    [contradiction | congruence | | exact Hrun].
  exfalso. exact (Hkey Hc Hk).
Qed.

Lemma has_error_initial pf :
  has_error pf = true ->
  data (initial_result pf) = JNull /\ error_set (initial_result pf).
Proof.
  unfold has_error, error_set, initial_result; simpl.
  destruct (pf_error pf) as [m |]; [| discriminate]. simpl. auto.
Qed.

(** The shape of an item the loop is done with. *)
Lemma item_outcome_shape env k pf r :
  item_outcome env k pf r ->
  processing r = false
  /\ ((data r = JNull /\ error_set r)
      \/ (error r = JNull
          /\ exists jsonText,
               answered_with env k jsonText /\ JSON_parse env jsonText = Normal (data r))).
Proof.
  intros (Hproc & Hfail & Hdone). split; [exact Hproc |].
  destruct (has_error pf) eqn:Herr.
  - left. rewrite (Hfail eq_refl). apply has_error_initial, Herr.
  - destruct (Hdone eq_refl) as (d & e & [[-> He] | [-> Hparse]] & ->); simpl.
    + left. split; [reflexivity | exact He].
    + right. split; [reflexivity | exact Hparse].
Qed.

Lemma error_set_not_null r : error_set r -> error r <> JNull.
Proof.
  unfold error_set. intros H E. rewrite E in H. discriminate.
Qed.

(** A started run, read off the trace. *)
Lemma started_run v env s :
  selectedFiles (app s) <> [] -> loading (app s) = false ->
  (checks_credential v = true -> credential v env <> "") ->
  exists pubs counts,
    fst (analyzeImages v env s) = Normal tt
    /\ chain (settles env)
         (map initial_result
            (preprocessed_from v env (selectedFiles (app s)) (reads s) (exifs s))) pubs
    /\ published (events_since s (snd (analyzeImages v env s)))
       = map initial_result
           (preprocessed_from v env (selectedFiles (app s)) (reads s) (exifs s)) :: pubs
    /\ sent (events_since s (snd (analyzeImages v env s)))
       = payloads_sent env
           (preprocessed_from v env (selectedFiles (app s)) (reads s) (exifs s)) counts
    /\ files_read (events_since s (snd (analyzeImages v env s))) = selectedFiles (app s)
    /\ Forall2 sent_count_ok
         (preprocessed_from v env (selectedFiles (app s)) (reads s) (exifs s)) counts
    /\ loading (app (snd (analyzeImages v env s))) = false
    /\ results (app (snd (analyzeImages v env s)))
       = final_of (map initial_result
                     (preprocessed_from v env (selectedFiles (app s)) (reads s) (exifs s)))
           pubs
    /\ fetches (snd (analyzeImages v env s)) = (fetches s + sum_list counts)%nat
    /\ forall k pf,
         preprocessed_from v env (selectedFiles (app s)) (reads s) (exifs s) !! k = Some pf ->
         exists r, results (app (snd (analyzeImages v env s))) !! k = Some r
                   /\ item_outcome env (last_request (fetches s) counts k) pf r.
Proof.
  intros Hsel Hload Hkey. rewrite (analyzeImages_started v env s Hsel Hload Hkey).
  destruct (run_analysis_run v (selectedFiles (app s)) env s)
    as (pubs & counts & evs & s' & Hrun & Hchain & Htr & Hpub & Hsent & Hread & Hcnt
        & _ & Hl & _ & Hres & Hfetch & Hitems).
  exists pubs, counts. rewrite Hrun. simpl.
  rewrite (events_since_app s s' evs Htr), Hres.
  repeat split; assumption.
Qed.

Lemma started_run_files v env s pubs P :
  chain (settles env)
    (map initial_result
       (preprocessed_from v env (selectedFiles (app s)) (reads s) (exifs s))) pubs ->
  P ∈ map initial_result
        (preprocessed_from v env (selectedFiles (app s)) (reads s) (exifs s)) :: pubs ->
  map file P = selectedFiles (app s).
Proof.
  intros Hchain Hin. rewrite (chain_files env pubs _ P Hchain Hin).
  rewrite <- list_fmap_compose.
  exact (preprocessed_from_files v env (selectedFiles (app s)) (reads s) (exifs s)).
Qed.

(** C3 (amended).  In a run that starts and settles, whatever the size of
    the batch: the run completes normally with [loading] false; the results
    are aligned with the selection; every item has [processing] false and is
    in exactly one of two shapes, an error with no data, or no error and, as
    data, the value [JSON.parse] returned for the text of the first
    candidate in the answer to the last request sent for that item (item
    [j] being sent [counts !! j] times, the requests of the run being
    numbered from [fetches s] on); and from one publication to the next an
    item that is terminal is left as it is. *)
Theorem analyzeImages_items_settle v env s :
  selectedFiles (app s) <> [] -> loading (app s) = false ->
  (checks_credential v = true -> credential v env <> "") ->
  let s' := snd (analyzeImages v env s) in
  let pubs := published (events_since s s') in
  let pfs := preprocessed_from v env (selectedFiles (app s)) (reads s) (exifs s) in
  fst (analyzeImages v env s) = Normal tt
  /\ loading (app s') = false
  /\ map file (results (app s')) = selectedFiles (app s)
  /\ (exists counts,
        sent (events_since s s') = payloads_sent env pfs counts
        /\ Forall2 sent_count_ok pfs counts
        /\ fetches s' = (fetches s + sum_list counts)%nat
        /\ forall k r, results (app s') !! k = Some r ->
             processing r = false
             /\ ((data r = JNull /\ error_set r)
                 \/ (error r = JNull
                     /\ exists jsonText,
                          answered_with env (last_request (fetches s) counts k) jsonText
                          /\ JSON_parse env jsonText = Normal (data r)))
             /\ ~ (error_set r /\ error r = JNull))
  /\ last pubs = Some (results (app s'))
  /\ (forall k P P' j r,
        pubs !! k = Some P -> pubs !! S k = Some P' ->
        P !! j = Some r -> processing r = false -> P' !! j = Some r).
Proof.
  intros Hsel Hload Hkey. cbv zeta.
  destruct (started_run v env s Hsel Hload Hkey)
    as (pubs & counts & Hfst & Hchain & Hpub & Hsent & _ & Hcnt & Hl & Hres & Hfetch
        & Hitems).
  set (pfs := preprocessed_from v env (selectedFiles (app s)) (reads s) (exifs s)) in *.
  assert (Hfiles : map file (results (app (snd (analyzeImages v env s))))
                   = selectedFiles (app s)).
  { rewrite Hres. apply (started_run_files v env s pubs); [exact Hchain |].
    apply final_of_in. }
  split; [exact Hfst |]. split; [exact Hl |]. split; [exact Hfiles |].
  split; [| split].
  - exists counts. split; [exact Hsent |]. split; [exact Hcnt |]. split; [exact Hfetch |].
    intros k r Hk.
    assert (Hlt : (k < length pfs)%nat).
    { unfold pfs. rewrite preprocessed_from_length, <- Hfiles, length_map.
      apply lookup_lt_Some in Hk. exact Hk. }
    apply lookup_lt_is_Some in Hlt as [pf Hpf].
    destruct (Hitems k pf Hpf) as (r' & Hk' & Hout).
    assert (r' = r) by congruence. subst r'.
    destruct (item_outcome_shape env _ pf r Hout) as [Hproc Hshape].
    split; [exact Hproc |]. split; [exact Hshape |].
    intros [Hset Hnull]. exact (error_set_not_null r Hset Hnull).
  - rewrite Hpub, Hres. unfold final_of.
    destruct pubs as [| P pubs']; [reflexivity |].
    rewrite last_cons_cons. destruct (last (P :: pubs')) eqn:E; [reflexivity |].
    apply last_None in E. discriminate.
  - rewrite Hpub. intros k P P' j r HP HP' Hj Hterm.
    exact (settles_keeps_terminal env P P' j r
             (chain_lookup (settles env) pubs _ k P P' Hchain HP HP') Hj Hterm).
Qed.

Lemma analyzeImages_items_settle_witness :
  let env := sample_env (Some "k")
               [Resolved response_429;
                Resolved (respond 200 "OK"
                            (Normal (two_candidates_body (JStr "{}") (JStr "null"))));
                Resolved response_500] [0%nat] in
  let s := start (idle [photo "a"; photo "b"; photo "c"]) in
  fst (analyzeImages PassionMapper env s) = Normal tt
  /\ loading (app (snd (analyzeImages PassionMapper env s))) = false
  /\ map file (results (app (snd (analyzeImages PassionMapper env s))))
     = [photo "a"; photo "b"; photo "c"]
  /\ map processing (results (app (snd (analyzeImages PassionMapper env s))))
     = [false; false; false]
  /\ map data (results (app (snd (analyzeImages PassionMapper env s))))
     = [JNull; JObj []; JNull]
  /\ answered_with env (last_request 0 [0; 2; 3]%nat 1) (JStr "{}")
  /\ JSON_parse env (JStr "{}") = Normal (JObj []).
Proof.
  cbv zeta.
  destruct (analyzeImages_items_settle PassionMapper
              (sample_env (Some "k")
                 [Resolved response_429;
                  Resolved (respond 200 "OK"
                              (Normal (two_candidates_body (JStr "{}") (JStr "null"))));
                  Resolved response_500] [0%nat])
              (start (idle [photo "a"; photo "b"; photo "c"])))
    as (H1 & H2 & H3 & _); [discriminate | reflexivity | discriminate |].
  split; [exact H1 |]. split; [exact H2 |]. split; [exact H3 |].
  split; [vm_compute; reflexivity |]. split; [vm_compute; reflexivity |].
  split; [| reflexivity].
  eexists _, _, _. repeat split; reflexivity.
Defined.

(** C3 (the claim as stated fails).  When the text of the model's first
    candidate is the JSON literal [null], the item ends with [processing]
    false, [data] null and [error] null: neither data set with error null,
    nor error set. *)
Lemma null_text_leaves_neither_data_nor_error :
  let env := sample_env (Some "k") [Resolved (response_200 (JStr "null"))] [] in
  let s := start (idle [photo "a"]) in
  exists r,
    results (app (snd (analyzeImages PassionMapper env s))) = [r]
    /\ processing r = false
    /\ ~ (data_set r /\ error r = JNull)
    /\ ~ error_set r.
Proof.
  cbv zeta. eexists. split; [vm_compute; reflexivity |].
  split; [reflexivity |]. split.
  - intros [Hd _]. apply Hd. reflexivity.
  - unfold error_set. simpl. discriminate.
Qed.

(** Of several candidates it is the text of the first that is parsed. *)
Example first_candidate_is_parsed :
  let env := sample_env (Some "k")
               [Resolved (respond 200 "OK"
                            (Normal (two_candidates_body (JStr "{}") (JStr "null"))))] [] in
  let s := start (idle [photo "a"]) in
  map data (results (app (snd (analyzeImages PassionMapper env s)))) = [JObj []]
  /\ answered_with env 0 (JStr "{}").
Proof.
  cbv zeta. split; [vm_compute; reflexivity |].
  eexists _, _, _. repeat split; reflexivity.
Qed.

(** C4. In any invocation, every list handed to [setResults] has one
    entry per selected file, in the order of the selection, and the number
    of terminal items never decreases from one published list to the
    next. *)
Theorem publications_monotonic v env s :
  let pubs := published (events_since s (snd (analyzeImages v env s))) in
  (forall k P P',
     pubs !! k = Some P -> pubs !! S k = Some P' ->
     (count_terminal P <= count_terminal P')%nat)
  /\ (forall P, P ∈ pubs -> map file P = selectedFiles (app s)).
Proof.
  cbv zeta.
  destruct (analyzeImages_cases v env s)
    as [(Hrun & _) | [(Hrun & _) | (_ & Hsel & Hload & Hkey)]].
  - rewrite Hrun. unfold events_since. simpl. rewrite drop_all. simpl.
    split; [intros k P P' HP; destruct k; discriminate |].
    intros P HP. apply elem_of_nil in HP. contradiction.
  - rewrite Hrun. unfold events_since. simpl. rewrite drop_app_length. simpl.
    split; [intros k P P' HP; destruct k; discriminate |].
    intros P HP. apply elem_of_nil in HP. contradiction.
  - destruct (started_run v env s Hsel Hload Hkey)
      as (pubs & counts & _ & Hchain & Hpub & _).
    rewrite Hpub. split.
    + intros k P P' HP HP'.
      rewrite (settles_count env P P'
                 (chain_lookup (settles env) pubs _ k P P' Hchain HP HP')).
      lia.
    + intros P HP. exact (started_run_files v env s pubs P Hchain HP).
Qed.

Lemma publications_monotonic_witness :
  let env := sample_env (Some "k")
               [Resolved response_429; Resolved (response_200 (JStr "{}"));
                Resolved response_500] [] in
  let s := start (idle [photo "a"; photo "b"]) in
  let pubs := published (events_since s (snd (analyzeImages PassionMapper env s))) in
  map count_terminal pubs = [0; 1; 2]%nat
  /\ (forall P, P ∈ pubs -> map file P = [photo "a"; photo "b"]).
Proof.
  cbv zeta. split; [vm_compute; reflexivity |].
  apply (publications_monotonic PassionMapper
           (sample_env (Some "k")
              [Resolved response_429; Resolved (response_200 (JStr "{}"));
               Resolved response_500] [])
           (start (idle [photo "a"; photo "b"]))).
Defined.

(** C6. In a run that starts: the run completes normally; every file is
    handed to the reader; the item of file [j] is the one preprocessing
    that file alone yields, so a failure on another file does not change
    it, and a file that cannot be read gets an item carrying an error; an
    item with a preprocessing error is never sent and stays as it is in
    every publication; every other item is sent (once, and again for each
    retry, at most three times) and ends terminal. *)
Theorem failures_are_isolated v env s :
  selectedFiles (app s) <> [] -> loading (app s) = false ->
  (checks_credential v = true -> credential v env <> "") ->
  let files := selectedFiles (app s) in
  let s' := snd (analyzeImages v env s) in
  let evs := events_since s s' in
  let pfs := preprocessed_from v env files (reads s) (exifs s) in
  fst (analyzeImages v env s) = Normal tt
  /\ files_read evs = files
  /\ (forall j f, files !! j = Some f ->
        pfs !! j = Some (preprocessed v env f (reads s + j) (exifs s + j * exif_step v)))
  /\ (forall j f e, files !! j = Some f -> FileReader_result env (reads s + j) = Abrupt e ->
        pfs !! j = Some (preprocessing_failed f e)
        /\ has_error (preprocessing_failed f e) = true)
  /\ head (published evs) = Some (map initial_result pfs)
  /\ (exists counts,
        sent evs = payloads_sent env pfs counts /\ Forall2 sent_count_ok pfs counts
        /\ forall j pf, pfs !! j = Some pf ->
             exists r, results (app s') !! j = Some r
                       /\ item_outcome env (last_request (fetches s) counts j) pf r)
  /\ (forall j pf P, pfs !! j = Some pf -> has_error pf = true ->
        P ∈ published evs -> P !! j = Some (initial_result pf)).
Proof.
  intros Hsel Hload Hkey. cbv zeta.
  destruct (started_run v env s Hsel Hload Hkey)
    as (pubs & counts & Hfst & Hchain & Hpub & Hsent & Hread & Hcnt & _ & _ & _ & Hitems).
  split; [exact Hfst |]. split; [exact Hread |].
  split; [intros j f Hj; apply preprocessed_from_lookup, Hj |].
  split.
  { intros j f e Hj He.
    rewrite (preprocessed_from_lookup v env _ _ _ j f Hj),
      (unreadable_has_error v env f _ _ e He).
    split; [reflexivity | apply preprocessing_failed_has_error]. }
  split; [rewrite Hpub; reflexivity |].
  split; [exists counts; repeat split; assumption |].
  intros j pf P Hj Herr HP. rewrite Hpub in HP.
  apply (chain_keeps_terminal env pubs _ P j (initial_result pf) Hchain); [| | exact HP].
  - rewrite list_lookup_fmap, Hj. reflexivity.
  - simpl. rewrite Herr. reflexivity.
Qed.

Lemma failures_are_isolated_witness :
  let env := sample_env (Some "k")
               [Resolved response_429; Resolved (response_200 (JStr "{}"))] [0%nat] in
  let s := start (idle [photo "a"; photo "b"]) in
  let s' := snd (analyzeImages PassionMapper env s) in
  fst (analyzeImages PassionMapper env s) = Normal tt
  /\ files_read (events_since s s') = [photo "a"; photo "b"]
  /\ length (sent (events_since s s')) = 2%nat
  /\ map error (results (app s')) = [JStr "Failed to read file"; JNull]
  /\ map processing (results (app s')) = [false; false].
Proof.
  cbv zeta.
  destruct (failures_are_isolated PassionMapper
              (sample_env (Some "k")
                 [Resolved response_429; Resolved (response_200 (JStr "{}"))] [0%nat])
              (start (idle [photo "a"; photo "b"])))
    as (H1 & H2 & _); [discriminate | reflexivity | discriminate |].
  split; [exact H1 |]. split; [exact H2 |].
  repeat split; vm_compute; reflexivity.
Defined.

(** ** The credential check *)

(** C7 (amended).  In a variant that checks the credential, an absent
    credential keeps every invocation from starting a run: no file is read,
    no request is sent, nothing is published, and selection, results and
    [loading] are unchanged; when files are selected and no run is in
    progress the missing-key message is set and the render shows it:
    [API Key Missing! Please set the VITE_GEMINI_API_KEY environment
    variable.]; and the render disables the button and shows the banner. *)
Theorem missing_credential_blocks_run v env s :
  checks_credential v = true -> credential v env = "" ->
  let s' := snd (analyzeImages v env s) in
  let evs := events_since s s' in
  fst (analyzeImages v env s) = Normal tt
  /\ files_read evs = [] /\ sent evs = [] /\ published evs = []
  /\ fetches s' = fetches s /\ reads s' = reads s /\ exifs s' = exifs s
  /\ selectedFiles (app s') = selectedFiles (app s)
  /\ results (app s') = results (app s)
  /\ loading (app s') = loading (app s)
  /\ (selectedFiles (app s) <> [] -> loading (app s) = false ->
      app_error (app s') = Some key_missing_message
      /\ error_box (app s')
         = Some "API Key Missing! Please set the VITE_GEMINI_API_KEY environment variable.")
  /\ isButtonDisabled v env (app s) = true
  /\ key_banner_shown v env = true.
Proof.
  intros Hchk Hkey. cbv zeta.
  assert (Hui : isButtonDisabled v env (app s) = true /\ key_banner_shown v env = true).
  { unfold isButtonDisabled, key_banner_shown. rewrite Hchk, Hkey. simpl.
    rewrite !orb_true_r. auto. }
  destruct (analyzeImages_cases v env s)
    as [(Hrun & Hwhy) | [(Hrun & _) | (_ & _ & _ & Hno)]].
  - rewrite Hrun. unfold events_since. simpl. rewrite drop_all. simpl.
    repeat split; try apply Hui; destruct Hwhy; congruence.
  - rewrite Hrun. unfold events_since. simpl. rewrite drop_app_length. simpl.
    repeat split; apply Hui.
  - exfalso. exact (Hno Hchk Hkey).
Qed.

Lemma missing_credential_blocks_run_witness :
  let env := sample_env None [Resolved (response_200 (JStr "{}"))] [] in
  let s := start (idle [photo "a"]) in
  fetches (snd (analyzeImages PassionMapper env s)) = 0%nat
  /\ reads (snd (analyzeImages PassionMapper env s)) = 0%nat
  /\ error_box (app (snd (analyzeImages PassionMapper env s)))
     = Some "API Key Missing! Please set the VITE_GEMINI_API_KEY environment variable.".
Proof.
  cbv zeta.
  destruct (missing_credential_blocks_run PassionMapper
              (sample_env None [Resolved (response_200 (JStr "{}"))] [])
              (start (idle [photo "a"])))
    as (_ & _ & _ & _ & Hf & Hr & _ & _ & _ & _ & He & _); [reflexivity | reflexivity |].
  split; [exact Hf |]. split; [exact Hr |]. apply He; [discriminate | reflexivity].
Defined.

(** C7 (the claim as stated fails).  The two variants of the second source
    file run with an empty credential and perform no check: the file is
    read, a request is sent and no error is shown.  And in the first
    variant an invocation with nothing selected sets no message. *)
Lemma unchecked_variants_start_without_credential :
  let env := sample_env None [Resolved (response_200 (JStr "{}"))] [] in
  let s := start (idle [photo "a"]) in
  (credential SummitMatcher env = ""
   /\ files_read (trace (snd (analyzeImages SummitMatcher env s))) = [photo "a"]
   /\ fetches (snd (analyzeImages SummitMatcher env s)) = 1%nat
   /\ app_error (app (snd (analyzeImages SummitMatcher env s))) = None)
  /\ (credential ExperienceMatcher env = ""
      /\ files_read (trace (snd (analyzeImages ExperienceMatcher env s))) = [photo "a"]
      /\ fetches (snd (analyzeImages ExperienceMatcher env s)) = 1%nat
      /\ app_error (app (snd (analyzeImages ExperienceMatcher env s))) = None)
  /\ (credential PassionMapper env = ""
      /\ app_error (app (snd (analyzeImages PassionMapper env (start (idle []))))) = None).
Proof.
  cbv zeta. repeat split; vm_compute; reflexivity.
Qed.

(** * Further properties *)

(** ** The retrying call, in general *)

Lemma failure_continues url options attempt maxRetries env s :
  failure_of (fetch_reply env (fetches s)) <> None ->
  (attempt <> maxRetries - 1)%Z ->
  attempt_body url options attempt maxRetries env s
  = (Normal Continue, after_backoff attempt env (after_fetch url options s)).
Proof.
  intros Hfail Hne. rewrite attempt_body_spec. cbv zeta.
  unfold failure_of in Hfail.
  destruct (fetch_reply env (fetches s)) as [r | e];
    [destruct (ok r); [contradiction |] |];
    (destruct (Z.eqb_spec attempt (maxRetries - 1)); [contradiction | reflexivity]).
Qed.

(** The loop returns the first ok response it meets. *)
Lemma attempts_from_first_ok n url options maxRetries env : forall attempt s k r,
  (attempt + Z.of_nat n = maxRetries)%Z -> (k < n)%nat ->
  (forall j, (j < k)%nat -> failure_of (fetch_reply env (fetches s + j)) <> None) ->
  fetch_reply env (fetches s + k) = Resolved r -> ok r = true ->
  fst (attempts_from n url options attempt maxRetries env s) = Normal (Some r)
  /\ fetches (snd (attempts_from n url options attempt maxRetries env s))
     = (fetches s + S k)%nat.
Proof.
  induction n as [| n IH]; intros attempt s k r Hsum Hk Hfail Hr Hok; [lia |].
  rewrite attempts_from_S. destruct k as [| k].
  - rewrite attempt_body_spec. cbv zeta. rewrite Nat.add_0_r in Hr. rewrite Hr, Hok.
    simpl. split; [reflexivity | lia].
  - rewrite failure_continues.
    + destruct (IH (attempt + 1)%Z (after_backoff attempt env (after_fetch url options s))
                  k r) as [H1 H2]; try assumption; try lia.
      * intros j Hj. simpl. rewrite <- Nat.add_succ_r. apply Hfail. lia.
      * simpl. rewrite <- Nat.add_succ_r. exact Hr.
      * split; [exact H1 |]. rewrite H2. simpl. lia.
    + specialize (Hfail 0%nat). rewrite Nat.add_0_r in Hfail. apply Hfail. lia.
    + lia.
Qed.

(** When every attempt fails the loop throws the error of the last one. *)
Lemma attempts_from_all_fail n url options maxRetries env : forall attempt s,
  (attempt + Z.of_nat n = maxRetries)%Z -> (1 <= n)%nat ->
  (forall j, (j < n)%nat -> failure_of (fetch_reply env (fetches s + j)) <> None) ->
  exists e,
    failure_of (fetch_reply env (fetches s + (n - 1))) = Some e
    /\ fst (attempts_from n url options attempt maxRetries env s) = Abrupt e
    /\ fetches (snd (attempts_from n url options attempt maxRetries env s))
       = (fetches s + n)%nat.
Proof.
  induction n as [| n IH]; intros attempt s Hsum Hn Hfail; [lia |].
  rewrite attempts_from_S. destruct n as [| n].
  - rewrite attempt_body_spec. cbv zeta.
    specialize (Hfail 0%nat). simpl. rewrite Nat.add_0_r in *.
    unfold failure_of in *.
    destruct (fetch_reply env (fetches s)) as [r | e];
      [destruct (ok r); [exfalso; apply Hfail; [lia | reflexivity] |] |];
      (destruct (Z.eqb_spec attempt (maxRetries - 1)); [| lia]);
      eexists; simpl; (split; [reflexivity | split; [reflexivity | lia]]).
  - rewrite failure_continues.
    + destruct (IH (attempt + 1)%Z (after_backoff attempt env (after_fetch url options s)))
        as (e & He & H1 & H2); try lia.
      * intros j Hj. simpl. rewrite <- Nat.add_succ_r. apply Hfail. lia.
      * exists e. simpl in He.
        replace (fetches s + (S (S n) - 1))%nat with (S (fetches s) + (S n - 1))%nat by lia.
        split; [exact He |]. split; [exact H1 |]. rewrite H2. simpl. lia.
    + specialize (Hfail 0%nat). rewrite Nat.add_0_r in Hfail. apply Hfail. lia.
    + lia.
Qed.

Lemma pauses_of_call url options maxRetries env s :
  (1 <= maxRetries)%Z ->
  (fetches s + S (length (sleeps (events_since s
       (snd (exponentialBackoffFetch url options maxRetries env s)))))
   = fetches (snd (exponentialBackoffFetch url options maxRetries env s)))%nat.
Proof.
  intros Hmax.
  destruct (exponentialBackoffFetch_effects url options maxRetries env s Hmax)
    as (ds & Htr & _ & _ & _ & _ & Hf & _).
  rewrite (events_since_app _ _ _ Htr), sleeps_call_events, Hf. reflexivity.
Qed.

(** X1. Whatever the bound, a call returns the first ok response among the
    answers to its attempts: if the first [k] answers are failures (a
    rejection or any non-ok response) and the next one is an ok response,
    with [k < maxRetries], the call returns that response after [k + 1]
    requests and [k] pauses. *)
Theorem returns_first_ok_response url options maxRetries env s k r :
  (Z.of_nat k < maxRetries)%Z ->
  (forall j, (j < k)%nat -> failure_of (fetch_reply env (fetches s + j)) <> None) ->
  fetch_reply env (fetches s + k) = Resolved r -> ok r = true ->
  fst (exponentialBackoffFetch url options maxRetries env s) = Normal (Some r)
  /\ fetches (snd (exponentialBackoffFetch url options maxRetries env s))
     = (fetches s + S k)%nat
  /\ length (sleeps (events_since s
               (snd (exponentialBackoffFetch url options maxRetries env s)))) = k.
Proof.
  intros Hk Hfail Hr Hok.
  pose proof (pauses_of_call url options maxRetries env s ltac:(lia)) as Hp.
  unfold exponentialBackoffFetch in *.
  destruct (attempts_from_first_ok (Z.to_nat maxRetries) url options maxRetries env 0 s k r)
    as [H1 H2]; try assumption; try lia.
  split; [exact H1 |]. split; [exact H2 |]. lia.
Qed.

Lemma returns_first_ok_response_witness :
  let env := sample_env None
               [Rejected network_error; Resolved response_500;
                Resolved (response_200 (JStr "{}"))] [] in
  fst (exponentialBackoffFetch "u" sample_request 5 env (start (idle [])))
  = Normal (Some (response_200 (JStr "{}")))
  /\ fetches (snd (exponentialBackoffFetch "u" sample_request 5 env (start (idle []))))
     = 3%nat.
Proof.
  cbv zeta.
  destruct (returns_first_ok_response "u" sample_request 5
              (sample_env None
                 [Rejected network_error; Resolved response_500;
                  Resolved (response_200 (JStr "{}"))] [])
              (start (idle [])) 2 (response_200 (JStr "{}")))
    as (H1 & H2 & _); try reflexivity; try lia.
  - intros [| [| j]] Hj; simpl; try discriminate. lia.
  - split; [exact H1 | exact H2].
Defined.

(** X2. When all [maxRetries] attempts fail ([maxRetries >= 1]), whatever
    the failures are, the call throws the error of the last attempt, having
    issued exactly [maxRetries] requests with a pause between consecutive
    ones; no earlier failure is ever thrown. *)
Theorem throws_last_error_after_all_attempts url options maxRetries env s :
  (1 <= maxRetries)%Z ->
  (forall j, (Z.of_nat j < maxRetries)%Z ->
             failure_of (fetch_reply env (fetches s + j)) <> None) ->
  exists e,
    failure_of (fetch_reply env (fetches s + Z.to_nat (maxRetries - 1))) = Some e
    /\ fst (exponentialBackoffFetch url options maxRetries env s) = Abrupt e
    /\ fetches (snd (exponentialBackoffFetch url options maxRetries env s))
       = (fetches s + Z.to_nat maxRetries)%nat
    /\ length (sleeps (events_since s
                 (snd (exponentialBackoffFetch url options maxRetries env s))))
       = Z.to_nat (maxRetries - 1).
Proof.
  intros Hmax Hfail.
  pose proof (pauses_of_call url options maxRetries env s Hmax) as Hp.
  unfold exponentialBackoffFetch in *.
  destruct (attempts_from_all_fail (Z.to_nat maxRetries) url options maxRetries env 0 s)
    as (e & He & H1 & H2); try lia.
  { intros j Hj. apply Hfail. lia. }
  exists e. replace (Z.to_nat (maxRetries - 1)) with (Z.to_nat maxRetries - 1)%nat by lia.
  split; [exact He |]. split; [exact H1 |]. split; [exact H2 |]. lia.
Qed.

Lemma throws_last_error_after_all_attempts_witness :
  exists e,
    fst (exponentialBackoffFetch "u" sample_request 2
           (sample_env None [Resolved response_500; Resolved response_429] [])
           (start (idle []))) = Abrupt e
    /\ e = status_error response_429.
Proof.
  destruct (throws_last_error_after_all_attempts "u" sample_request 2
              (sample_env None [Resolved response_500; Resolved response_429] [])
              (start (idle []))) as (e & He & H1 & _); [lia | |].
  - intros [| [| j]] Hj; simpl; discriminate.
  - exists e. split; [exact H1 |]. simpl in He. congruence.
Defined.

(** X3. With a bound of zero or less the call issues no request at all and
    returns [undefined], leaving everything as it was. *)
Theorem no_attempt_returns_undefined url options maxRetries env s :
  (maxRetries <= 0)%Z ->
  exponentialBackoffFetch url options maxRetries env s = (Normal None, s).
Proof.
  intros Hmax. unfold exponentialBackoffFetch.
  replace (Z.to_nat maxRetries) with 0%nat by lia. reflexivity.
Qed.

Lemma no_attempt_returns_undefined_witness :
  exponentialBackoffFetch "u" sample_request 0 (sample_env None [] []) (start (idle []))
  = (Normal None, start (idle [])).
Proof.
  apply no_attempt_returns_undefined. lia.
Defined.

(** X4. A call with [maxRetries >= 1] issues at least one and at most
    [maxRetries] requests, every one with the url and options it was given,
    and never touches the component state. *)
Theorem call_requests_bounded url options maxRetries env s :
  (1 <= maxRetries)%Z ->
  let s' := snd (exponentialBackoffFetch url options maxRetries env s) in
  (1 <= length (requests (events_since s s')) <= Z.to_nat maxRetries)%nat
  /\ Forall (fun q => q = (url, options)) (requests (events_since s s'))
  /\ app s' = app s.
Proof.
  intros Hmax. cbv zeta.
  destruct (exponentialBackoffFetch_effects url options maxRetries env s Hmax)
    as (ds & Htr & Hlen & Happ & _).
  rewrite (events_since_app _ _ _ Htr).
  assert (Hreq : requests (call_events url options ds)
                 = replicate (S (length ds)) (url, options)).
  { unfold call_events. clear. induction ds as [| d ds IH]; simpl; [reflexivity |].
    rewrite IH. reflexivity. }
  rewrite Hreq, length_replicate.
  split; [lia |]. split; [| exact Happ].
  apply Forall_replicate. reflexivity.
Qed.

Lemma call_requests_bounded_witness :
  length (requests (events_since (start (idle []))
            (snd (exponentialBackoffFetch "u" sample_request 3
                    (sample_env None [Resolved response_429] []) (start (idle []))))))
  = 3%nat
  /\ (1 <= 3 <= Z.to_nat 3)%nat.
Proof.
  split; [vm_compute; reflexivity |].
  pose proof (call_requests_bounded "u" sample_request 3
                (sample_env None [Resolved response_429] []) (start (idle []))
                ltac:(lia)) as H.
  cbv zeta in H. destruct H as (H & _).
  replace (length _) with 3%nat in H by (vm_compute; reflexivity). exact H.
Defined.

(** X5. With the default bound a call pauses at most twice, each pause
    being a finite number of milliseconds, for at most four seconds in
    total (at most 1.5 s, then at most 2.5 s), provided [Math.random()]
    yields binary64 values in [[0, 1)].  Four seconds are reached: see
    [four_seconds_are_reached]. *)
Theorem default_call_waits_at_most_four_seconds url options env s :
  (forall i, random_value (Math_random env i)) ->
  let pauses := sleeps (events_since s
                  (snd (exponentialBackoffFetch url options default_maxRetries env s))) in
  exists ts : list Q,
    pauses = map Finite ts
    /\ (length ts <= 2)%nat
    /\ (0 <= total_pause ts)%Q /\ (total_pause ts <= 4000)%Q.
Proof.
  intros Hrand. cbv zeta.
  destruct (exponentialBackoffFetch_effects url options default_maxRetries env s)
    as (ds & Htr & Hlen & _ & _ & _ & _ & Hd); [unfold default_maxRetries; lia |].
  rewrite (events_since_app _ _ _ Htr), sleeps_call_events.
  change (Z.to_nat default_maxRetries) with 3%nat in Hlen.
  assert (B0 : (backoff_base 0 == 1000)%Q) by reflexivity.
  assert (B1 : (backoff_base 1 == 2000)%Q) by reflexivity.
  destruct ds as [| d0 [| d1 [| d2 ds]]]; simpl in Hlen; try lia.
  - exists []. simpl. split; [reflexivity |]. split; [lia |].
    split; [apply Qle_refl | discriminate].
  - pose proof (Hd 0%nat d0 eq_refl) as H0.
    destruct (backoff_delay_bounds 0 (Math_random env (randoms s + 0)))
      as (j0 & t0 & _ & _ & _ & _ & E0 & L0 & U0); [lia | apply Hrand |].
    change (0 + Z.of_nat 0)%Z with 0%Z in H0. rewrite E0 in H0. subst d0.
    exists [t0]. unfold total_pause. simpl.
    split; [reflexivity |]. split; [lia |]. split; lra.
  - pose proof (Hd 0%nat d0 eq_refl) as H0. pose proof (Hd 1%nat d1 eq_refl) as H1.
    destruct (backoff_delay_bounds 0 (Math_random env (randoms s + 0)))
      as (j0 & t0 & _ & _ & _ & _ & E0 & L0 & U0); [lia | apply Hrand |].
    destruct (backoff_delay_bounds 1 (Math_random env (randoms s + 1)))
      as (j1 & t1 & _ & _ & _ & _ & E1 & L1 & U1); [lia | apply Hrand |].
    change (0 + Z.of_nat 0)%Z with 0%Z in H0. change (0 + Z.of_nat 1)%Z with 1%Z in H1.
    rewrite E0 in H0. rewrite E1 in H1. subst d0 d1.
    exists [t0; t1]. unfold total_pause. simpl.
    split; [reflexivity |]. split; [lia |]. split; lra.
Qed.

Lemma default_call_waits_at_most_four_seconds_witness :
  let env := sample_env None [Resolved response_429; Rejected network_error] [] in
  let pauses := sleeps (events_since (start (idle []))
                  (snd (exponentialBackoffFetch "u" sample_request default_maxRetries env
                          (start (idle [])))) ) in
  (forall i, random_value (Math_random env i))
  /\ exists ts : list Q,
       pauses = map Finite ts
       /\ (length ts <= 2)%nat
       /\ (0 <= total_pause ts)%Q /\ (total_pause ts <= 4000)%Q.
Proof.
  cbv zeta.
  assert (Hr : forall i, random_value (Math_random
             (sample_env None [Resolved response_429; Rejected network_error] []) i)).
  { intros i. simpl. repeat split; vm_compute; (reflexivity || discriminate). }
  split; [exact Hr |].
  apply (default_call_waits_at_most_four_seconds "u" sample_request
           (sample_env None [Resolved response_429; Rejected network_error] [])
           (start (idle [])) Hr).
Defined.

(** With [Math.random()] returning [1 - 2^-53] twice, the two pauses of a
    call last 1500 and 2500 milliseconds. *)
Example four_seconds_are_reached :
  let env := with_random (1 - 2 ^ (-53))%Q
               (sample_env None [Resolved response_429; Rejected network_error] []) in
  let pauses := sleeps (events_since (start (idle []))
                  (snd (exponentialBackoffFetch "u" sample_request default_maxRetries env
                          (start (idle [])))) ) in
  exists t0 t1 : Q,
    pauses = [Finite t0; Finite t1]
    /\ (t0 == 1500)%Q /\ (t1 == 2500)%Q /\ (total_pause [t0; t1] == 4000)%Q.
Proof.
  cbv zeta. do 2 eexists.
  split; [vm_compute; reflexivity |].
  split; [vm_compute; reflexivity |]. split; vm_compute; reflexivity.
Qed.

(** ** The selection handlers, in general *)

(** The component state after [handleFileChange], in both cases. *)
Lemma handleFileChange_app files env s :
  fst (handleFileChange files env s) = Normal tt
  /\ app (snd (handleFileChange files env s))
     = if (Z.of_nat (length (selectedFiles (app s)))
           + Z.of_nat (length (List.filter is_image files)) >? MAX_FILES)%Z
       then {| selectedFiles := selectedFiles (app s); results := results (app s);
               loading := loading (app s); app_error := Some limit_message |}
       else {| selectedFiles := (selectedFiles (app s) ++ List.filter is_image files)%list;
               results := match List.filter is_image files with
                          | [] => results (app s)
                          | _ :: _ => []
                          end;
               loading := loading (app s); app_error := None |}.
Proof.
  unfold handleFileChange, bind, get_app; simpl.
  destruct (Z.gtb_spec (Z.of_nat (length (selectedFiles (app s)))
                        + Z.of_nat (length (List.filter is_image files))) MAX_FILES)
    as [Hover | Hle]; simpl; [split; reflexivity |].
  unfold setSelectedFiles, bind, get_app; simpl.
  assert (Htake : take (Z.to_nat MAX_FILES)
                    (selectedFiles (app s) ++ List.filter is_image files)
                  = (selectedFiles (app s) ++ List.filter is_image files)%list).
  { apply take_ge. rewrite length_app. unfold MAX_FILES in *. lia. }
  rewrite Htake, length_app.
  destruct (List.filter is_image files) as [| f fs]; simpl.
  - rewrite Nat.add_0_r, Nat.eqb_refl. simpl. split; reflexivity.
  - destruct (Nat.eqb_spec (length (selectedFiles (app s)))
                (length (selectedFiles (app s)) + S (length fs))); [lia |].
    simpl. split; reflexivity.
Qed.

(** X6. When the selection plus the chosen image files fits the cap, the
    image files are appended in the order chosen (the others are dropped),
    the error message is cleared, and the results are cleared exactly when
    at least one file was added; this holds whether or not a run is in
    progress. *)
Theorem handleFileChange_appends_images files env s :
  (length (selectedFiles (app s)) + length (List.filter is_image files) <= 25)%nat ->
  let a' := app (snd (handleFileChange files env s)) in
  selectedFiles a' = (selectedFiles (app s) ++ List.filter is_image files)%list
  /\ app_error a' = None
  /\ loading a' = loading (app s)
  /\ (List.filter is_image files = [] -> results a' = results (app s))
  /\ (List.filter is_image files <> [] -> results a' = []).
Proof.
  intros Hfit. cbv zeta. destruct (handleFileChange_app files env s) as [_ Happ].
  rewrite Happ.
  destruct (Z.gtb_spec (Z.of_nat (length (selectedFiles (app s)))
                        + Z.of_nat (length (List.filter is_image files))) MAX_FILES)
    as [Hover | _]; [unfold MAX_FILES in Hover; lia |].
  simpl. repeat split; destruct (List.filter is_image files); congruence.
Qed.

Lemma handleFileChange_appends_images_witness :
  let txt := {| name := "notes.txt"; type := "text/plain"; lastModified := 0 |} in
  let s := {| app := {| selectedFiles := [photo "z"];
                        results := [initial_result (preprocessing_failed (photo "z")
                                                      network_error)];
                        loading := true; app_error := Some limit_message |};
              fetches := 0; randoms := 0; reads := 0; exifs := 0; trace := [] |} in
  selectedFiles (app (snd (handleFileChange [photo "a"; txt] (sample_env None [] []) s)))
  = [photo "z"; photo "a"]
  /\ results (app (snd (handleFileChange [photo "a"; txt] (sample_env None [] []) s))) = []
  /\ results (app (snd (handleFileChange [txt] (sample_env None [] []) s)))
     = [initial_result (preprocessing_failed (photo "z") network_error)].
Proof.
  cbv zeta. split; [| split].
  - apply (handleFileChange_appends_images
             [photo "a"; {| name := "notes.txt"; type := "text/plain"; lastModified := 0 |}]).
    simpl. lia.
  - apply (handleFileChange_appends_images
             [photo "a"; {| name := "notes.txt"; type := "text/plain"; lastModified := 0 |}]);
      [simpl; lia | discriminate].
  - apply (handleFileChange_appends_images
             [{| name := "notes.txt"; type := "text/plain"; lastModified := 0 |}]);
      [simpl; lia | reflexivity].
Defined.

(** The component state after [removeFile] when no run is in progress. *)
Lemma removeFile_app indexToRemove env s :
  loading (app s) = false ->
  fst (removeFile indexToRemove env s) = Normal tt
  /\ app (snd (removeFile indexToRemove env s))
     = {| selectedFiles :=
            if (0 <=? indexToRemove)%Z
            then (take (Z.to_nat indexToRemove) (selectedFiles (app s))
                  ++ drop (S (Z.to_nat indexToRemove)) (selectedFiles (app s)))%list
            else selectedFiles (app s);
          results := []; loading := false; app_error := app_error (app s) |}.
Proof.
  intros Hl. unfold removeFile, bind, get_app; simpl. rewrite Hl. simpl.
  rewrite filter_index_delete, Z.sub_0_r, Hl. split; reflexivity.
Qed.

(** X7. While a run is in progress ([loading] true) [removeFile] and
    [analyzeImages] do nothing at all: no state change, no request, no file
    read; [analyzeImages] also does nothing when no file is selected. *)
Theorem guarded_while_loading v indexToRemove env s :
  (loading (app s) = true ->
   removeFile indexToRemove env s = (Normal tt, s)
   /\ analyzeImages v env s = (Normal tt, s))
  /\ (selectedFiles (app s) = [] -> analyzeImages v env s = (Normal tt, s)).
Proof.
  split.
  - intros Hl. split.
    + unfold removeFile, bind, get_app; simpl. rewrite Hl. reflexivity.
    + unfold analyzeImages, bind, get_app; simpl. rewrite Hl, orb_true_r. reflexivity.
  - intros Hsel. unfold analyzeImages, bind, get_app; simpl. rewrite Hsel. reflexivity.
Qed.

Lemma guarded_while_loading_witness :
  let s := {| app := {| selectedFiles := [photo "a"]; results := []; loading := true;
                        app_error := None |};
              fetches := 0; randoms := 0; reads := 0; exifs := 0; trace := [] |} in
  removeFile 0 (sample_env (Some "k") [] []) s = (Normal tt, s)
  /\ analyzeImages PassionMapper (sample_env (Some "k") [] []) s = (Normal tt, s).
Proof.
  cbv zeta.
  apply (guarded_while_loading PassionMapper 0 (sample_env (Some "k") [] [])).
  reflexivity.
Defined.

(** The component state after [removeFile] while a run is in progress. *)
Lemma removeFile_loading indexToRemove env s :
  loading (app s) = true -> removeFile indexToRemove env s = (Normal tt, s).
Proof.
  intros Hl. unfold removeFile, bind, get_app; simpl. rewrite Hl. reflexivity.
Qed.

(** X8. Adding one image file to a selection below the cap and then
    removing the last position clears the results and leaves [loading] as
    it was.  When no run is in progress the selection is back as it was;
    during a run the removal is ignored, so the added file stays
    selected. *)
Theorem add_then_remove_restores v f env s :
  is_image f = true -> (length (selectedFiles (app s)) < 25)%nat ->
  let s' := snd (perform_all v
                   [Choose [f]; Remove (Z.of_nat (length (selectedFiles (app s))))] env s) in
  results (app s') = []
  /\ loading (app s') = loading (app s)
  /\ (loading (app s) = false -> selectedFiles (app s') = selectedFiles (app s))
  /\ (loading (app s) = true ->
      selectedFiles (app s') = (selectedFiles (app s) ++ [f])%list).
Proof.
  intros Himg Hlen. cbv zeta. simpl. unfold bind.
  destruct (handleFileChange_app [f] env s) as [Hfst Happ].
  destruct (handleFileChange [f] env s) as [c s1]. cbn [fst snd] in Hfst, Happ. subst c.
  assert (Hfilter : List.filter is_image [f] = [f]) by (simpl; rewrite Himg; reflexivity).
  rewrite Hfilter in Happ.
  destruct (Z.gtb_spec (Z.of_nat (length (selectedFiles (app s))) + Z.of_nat (length [f]))
              MAX_FILES) as [Hover | _]; [unfold MAX_FILES in Hover; simpl in Hover; lia |].
  destruct (loading (app s)) eqn:Hl.
  - rewrite (removeFile_loading _ env s1) by (rewrite Happ; reflexivity).
    unfold ret. cbn [fst snd]. rewrite Happ. simpl.
    split; [reflexivity |]. split; [reflexivity |]. split; [discriminate | reflexivity].
  - destruct (removeFile_app (Z.of_nat (length (selectedFiles (app s)))) env s1)
      as [Hfst' Happ'].
    { rewrite Happ. reflexivity. }
    destruct (removeFile (Z.of_nat (length (selectedFiles (app s)))) env s1) as [c s2].
    cbn [fst snd] in Hfst', Happ'. subst c. unfold ret. cbn [fst snd].
    rewrite Happ', Happ. simpl.
    destruct (Z.leb_spec 0 (Z.of_nat (length (selectedFiles (app s))))); [| lia].
    rewrite Nat2Z.id. split; [reflexivity |]. split; [reflexivity |].
    split; [intros _ | discriminate].
    rewrite take_app_length.
    rewrite drop_ge by (rewrite length_app; simpl; lia).
    apply app_nil_r.
Qed.

Lemma add_then_remove_restores_witness :
  let env := sample_env None [] [] in
  let busy := {| selectedFiles := [photo "a"; photo "b"]; results := [];
                 loading := true; app_error := None |} in
  selectedFiles
    (app (snd (perform_all PassionMapper [Choose [photo "c"]; Remove 2] env
                 (start (idle [photo "a"; photo "b"])))))
  = [photo "a"; photo "b"]
  /\ selectedFiles
       (app (snd (perform_all PassionMapper [Choose [photo "c"]; Remove 2] env (start busy))))
     = [photo "a"; photo "b"; photo "c"].
Proof.
  cbv zeta. split.
  - apply (add_then_remove_restores PassionMapper (photo "c") (sample_env None [] [])
             (start (idle [photo "a"; photo "b"]))); [reflexivity | simpl; lia | reflexivity].
  - apply (add_then_remove_restores PassionMapper (photo "c") (sample_env None [] [])
             (start {| selectedFiles := [photo "a"; photo "b"]; results := [];
                       loading := true; app_error := None |}));
      [reflexivity | simpl; lia | reflexivity].
Defined.

(** ** What every session keeps *)

Lemma filter_is_image files : Forall (fun f => is_image f = true) (List.filter is_image files).
Proof.
  induction files as [| f files IH]; simpl; [constructor |].
  destruct (is_image f) eqn:E; [constructor; assumption | exact IH].
Qed.

Lemma analyzeImages_well_formed v env s :
  well_formed (app s) ->
  fst (analyzeImages v env s) = Normal tt
  /\ well_formed (app (snd (analyzeImages v env s))).
Proof.
  intros (Hcap & Himg & Hl & Hres).
  destruct (analyzeImages_cases v env s)
    as [(Hrun & _) | [(Hrun & _) | (Hrun & _)]]; rewrite Hrun.
  - split; [reflexivity |]. repeat split; assumption.
  - simpl. split; [reflexivity |]. repeat split; assumption.
  - destruct (run_analysis_run v (selectedFiles (app s)) env s)
      as (pubs & counts & evs & s' & Hr & Hchain & _ & _ & _ & _ & _ & Hsel & Hl' & _
          & Hfinal & _).
    rewrite Hr. simpl. split; [reflexivity |].
    unfold well_formed. rewrite Hsel, Hfinal.
    repeat split; try assumption. right.
    apply (started_run_files v env s pubs); [exact Hchain | apply final_of_in].
Qed.

Lemma perform_well_formed v a env s :
  well_formed (app s) ->
  fst (perform v a env s) = Normal tt /\ well_formed (app (snd (perform v a env s))).
Proof.
  intros Hwf. destruct a as [files | indexToRemove |]; simpl.
  - destruct Hwf as (Hcap & Himg & Hl & Hres).
    destruct (handleFileChange_app files env s) as [Hfst Happ].
    split; [exact Hfst |]. rewrite Happ.
    destruct (Z.gtb_spec (Z.of_nat (length (selectedFiles (app s)))
                          + Z.of_nat (length (List.filter is_image files))) MAX_FILES)
      as [_ | Hle]; unfold well_formed; simpl.
    + repeat split; assumption.
    + split; [rewrite length_app; unfold MAX_FILES in Hle; lia |].
      split; [apply Forall_app; split; [exact Himg | apply filter_is_image] |].
      split; [exact Hl |].
      destruct (List.filter is_image files); [rewrite app_nil_r; exact Hres | left; reflexivity].
  - destruct Hwf as (Hcap & Himg & Hl & Hres).
    destruct (removeFile_app indexToRemove env s Hl) as [Hfst Happ].
    split; [exact Hfst |]. rewrite Happ. unfold well_formed; simpl.
    destruct (0 <=? indexToRemove)%Z.
    + split; [rewrite length_app, length_take, length_drop; lia |].
      split; [apply Forall_app; split; [apply Forall_take | apply Forall_drop]; exact Himg |].
      split; [reflexivity | left; reflexivity].
    + repeat split; try assumption. left; reflexivity.
  - apply analyzeImages_well_formed, Hwf.
Qed.

Lemma perform_all_well_formed v actions : forall env s,
  well_formed (app s) ->
  fst (perform_all v actions env s) = Normal tt
  /\ well_formed (app (snd (perform_all v actions env s))).
Proof.
  induction actions as [| a rest IH]; intros env s Hwf; simpl.
  - split; [reflexivity | exact Hwf].
  - unfold bind. destruct (perform_well_formed v a env s Hwf) as [Hfst Hwf'].
    destruct (perform v a env s) as [c s1]. simpl in Hfst, Hwf'. subst c.
    apply IH, Hwf'.
Qed.

(** X9. Whatever the user does, in any order (choosing files, removing a
    position, pressing the button), starting from a selection of at most 25
    image files: no action throws, and the selection never exceeds 25 files
    and never contains a file whose type does not start with [image/]. *)
Theorem session_selection_capped v actions env s :
  well_formed (app s) ->
  fst (perform_all v actions env s) = Normal tt
  /\ (length (selectedFiles (app (snd (perform_all v actions env s)))) <= 25)%nat
  /\ Forall (fun f => String.prefix "image/" (type f) = true)
       (selectedFiles (app (snd (perform_all v actions env s)))).
Proof.
  intros Hwf. destruct (perform_all_well_formed v actions env s Hwf)
    as (Hfst & Hcap & Himg & _).
  split; [exact Hfst |]. split; [exact Hcap | exact Himg].
Qed.

Lemma session_selection_capped_witness :
  let actions := [Choose (replicate 20 (photo "a")); Analyze; Choose (replicate 6 (photo "b"));
                  Remove 3; Choose (replicate 6 (photo "c"))] in
  length (selectedFiles
            (app (snd (perform_all SummitMatcher actions (sample_env None [] [])
                         (start (idle [])))))) = 25%nat
  /\ (25 <= 25)%nat.
Proof.
  cbv zeta. split; [vm_compute; reflexivity |].
  destruct (session_selection_capped SummitMatcher
              [Choose (replicate 20 (photo "a")); Analyze; Choose (replicate 6 (photo "b"));
               Remove 3; Choose (replicate 6 (photo "c"))]
              (sample_env None [] []) (start (idle []))) as (_ & H & _).
  - unfold well_formed. simpl. repeat split; [lia | constructor | left; reflexivity].
  - replace (length _) with 25%nat in H by (vm_compute; reflexivity). exact H.
Defined.

(** X10. When each action is carried through before the next one (a run is
    not interleaved with other actions), between two actions no run is in
    progress and the results are either empty or exactly one item per
    selected file, in the order of the selection. *)
Theorem session_results_match_selection v actions env s :
  well_formed (app s) ->
  let a' := app (snd (perform_all v actions env s)) in
  loading a' = false
  /\ (results a' = [] \/ map file (results a') = selectedFiles a').
Proof.
  intros Hwf. cbv zeta. destruct (perform_all_well_formed v actions env s Hwf)
    as (_ & _ & _ & Hl & Hres).
  split; [exact Hl | exact Hres].
Qed.

Lemma session_results_match_selection_witness :
  let actions := [Choose [photo "a"; photo "b"]; Analyze] in
  let a' := app (snd (perform_all ExperienceMatcher actions
                        (sample_env None [Resolved (response_200 (JStr "{}"))] [])
                        (start (idle [])))) in
  map file (results a') = [photo "a"; photo "b"]
  /\ (results a' = [] \/ map file (results a') = selectedFiles a').
Proof.
  cbv zeta. split; [vm_compute; reflexivity |].
  apply (session_results_match_selection ExperienceMatcher
           [Choose [photo "a"; photo "b"]; Analyze]).
  unfold well_formed. simpl. repeat split; [lia | constructor | left; reflexivity].
Defined.

(** ** The run: how many requests, to where, in which order *)

Lemma sent_requests t : sent t = map (fun q => body q.2) (requests t).
Proof.
  induction t as [| [] t IH]; simpl; rewrite ?IH; reflexivity.
Qed.

Lemma requests_app t1 t2 : requests (t1 ++ t2) = (requests t1 ++ requests t2)%list.
Proof.
  induction t1 as [| [] t1 IH]; simpl; rewrite ?IH; reflexivity.
Qed.

Lemma requests_call_events url options ds :
  requests (call_events url options ds) = replicate (S (length ds)) (url, options).
Proof.
  unfold call_events. induction ds as [| d ds IH]; simpl; [reflexivity |].
  rewrite IH. reflexivity.
Qed.



Lemma not_started_events v env s :
  analyzeImages v env s = (Normal tt, s)
  \/ analyzeImages v env s = setError (Some key_missing_message) env s ->
  sent (events_since s (snd (analyzeImages v env s))) = []
  /\ published (events_since s (snd (analyzeImages v env s))) = []
  /\ files_read (events_since s (snd (analyzeImages v env s))) = [].
Proof.
  intros [H | H]; rewrite H; unfold events_since; simpl.
  - rewrite drop_all. repeat split.
  - rewrite drop_app_length. repeat split.
Qed.


(** A file whose reader result holds no comma is preprocessed without
    error and posted without bytes. *)
Example commaless_result_is_sent_without_bytes :
  let env := with_reader (Normal "data:")
               (sample_env (Some "k") [Resolved (response_200 (JStr "{}"))] []) in
  let s := start (idle [photo "a"]) in
  map inlineData (sent (events_since s (snd (analyzeImages PassionMapper env s))))
  = [Undefined]
  /\ map error (results (app (snd (analyzeImages PassionMapper env s)))) = [JNull].
Proof.
  cbv zeta. split; vm_compute; reflexivity.
Qed.


Lemma chain_count env : forall pubs P0,
  chain (settles env) P0 pubs ->
  count_terminal (final_of P0 pubs) = (count_terminal P0 + length pubs)%nat.
Proof.
  induction pubs as [| P1 pubs IH]; intros P0 Hc.
  - unfold final_of. simpl. lia.
  - destruct Hc as [H01 Hc]. rewrite final_of_cons, (IH P1 Hc), (settles_count env _ _ H01).
    simpl. lia.
Qed.

Lemma count_terminal_split l :
  (count_terminal l + length (List.filter processing l) = length l)%nat.
Proof.
  unfold count_terminal, terminal.
  induction l as [| r l IH]; simpl; [reflexivity |].
  destruct (processing r); simpl; lia.
Qed.

Lemma all_terminal_count l :
  (forall r, r ∈ l -> processing r = false) -> count_terminal l = length l.
Proof.
  unfold count_terminal, terminal.
  induction l as [| r l IH]; intros H; simpl; [reflexivity |].
  rewrite (H r (list_elem_of_here _ _)). simpl. f_equal. apply IH.
  intros r' Hr'. apply H, list_elem_of_further, Hr'.
Qed.

(** X12. A run that starts publishes the initial list and then exactly
    one list per item that was still processing in it, no more and no
    fewer; the last one is the final result state. *)
Theorem one_publication_per_pending_item v env s :
  selectedFiles (app s) <> [] -> loading (app s) = false ->
  (checks_credential v = true -> credential v env <> "") ->
  exists P0 rest,
    published (events_since s (snd (analyzeImages v env s))) = P0 :: rest
    /\ length rest = length (List.filter processing P0)
    /\ results (app (snd (analyzeImages v env s))) = final_of P0 rest.
Proof.
  intros Hsel Hload Hkey.
  destruct (started_run v env s Hsel Hload Hkey)
    as (pubs & counts & _ & Hchain & Hpub & _ & _ & _ & _ & Hres & _ & Hitems).
  eexists _, pubs. split; [exact Hpub |]. split; [| exact Hres].
  set (pfs := preprocessed_from v env (selectedFiles (app s)) (reads s) (exifs s)) in *.
  pose proof (chain_count env pubs _ Hchain) as Hcount.
  pose proof (count_terminal_split (map initial_result pfs)) as Hsplit.
  assert (Hlen : length (final_of (map initial_result pfs) pubs)
                 = length (map initial_result pfs)).
  { rewrite <- (length_map file), <- (length_map file (map initial_result pfs)).
    f_equal. apply (chain_files env pubs); [exact Hchain | apply final_of_in]. }
  assert (Hall : count_terminal (final_of (map initial_result pfs) pubs)
                 = length (final_of (map initial_result pfs) pubs)).
  { apply all_terminal_count. intros r Hr. apply list_elem_of_lookup in Hr as [k Hk].
    assert (Hlt : (k < length pfs)%nat).
    { apply lookup_lt_Some in Hk. rewrite Hlen, length_map in Hk. exact Hk. }
    apply lookup_lt_is_Some in Hlt as [pf Hpf].
    destruct (Hitems k pf Hpf) as (r' & Hk' & Hout & _).
    rewrite Hres in Hk'. congruence. }
  lia.
Qed.

Lemma one_publication_per_pending_item_witness :
  let env := sample_env (Some "k") [Resolved (response_200 (JStr "{}"))] [0%nat] in
  let s := start (idle [photo "a"; photo "b"; photo "c"]) in
  length (published (events_since s (snd (analyzeImages PassionMapper env s)))) = 3%nat.
Proof.
  cbv zeta.
  destruct (one_publication_per_pending_item PassionMapper
              (sample_env (Some "k") [Resolved (response_200 (JStr "{}"))] [0%nat])
              (start (idle [photo "a"; photo "b"; photo "c"])))
    as (P0 & rest & Hpub & Hlen & _); [discriminate | reflexivity | discriminate |].
  rewrite Hpub. simpl. rewrite Hlen.
  assert (HP0 : head (published (events_since (start (idle [photo "a"; photo "b"; photo "c"]))
                 (snd (analyzeImages PassionMapper
                         (sample_env (Some "k") [Resolved (response_200 (JStr "{}"))] [0%nat])
                         (start (idle [photo "a"; photo "b"; photo "c"])))))) = Some P0)
    by (rewrite Hpub; reflexivity).
  vm_compute in HP0. inversion HP0. reflexivity.
Defined.

(** The trace of one iteration, whatever the list it works on. *)
Lemma infer_and_publish_trace url pf i cur env s :
  exists cur' ds,
    infer_and_publish url pf i cur env s
    = (Normal cur', snd (infer_and_publish url pf i cur env s))
    /\ trace (snd (infer_and_publish url pf i cur env s))
       = (trace s ++ call_events url (request_for env pf) ds ++ [EvSetResults cur'])%list.
Proof.
  unfold infer_and_publish, bind.
  destruct (infer_item_caught url pf i cur env s) as (d & e & _ & Hrun).
  rewrite Hrun.
  destruct (exponentialBackoffFetch_effects url (request_for env pf) default_maxRetries
              env s) as (ds & Htr & _); [unfold default_maxRetries; lia |].
  eexists _, ds. split; [reflexivity |]. simpl. rewrite Htr, <- app_assoc. reflexivity.
Qed.

Lemma inference_loop_trace url pending : forall i cur env s,
  exists evs,
    trace (snd (inference_loop url pending i cur env s)) = (trace s ++ evs)%list
    /\ files_read evs = []
    /\ Forall (posted_to url) (requests evs).
Proof.
  induction pending as [| pf rest IH]; intros i cur env s; simpl.
  - exists []. rewrite app_nil_r. repeat split. constructor.
  - destruct (has_error pf); [apply IH |].
    unfold bind.
    destruct (infer_and_publish_trace url pf i cur env s) as (cur' & ds & Hrun & Htr).
    rewrite Hrun.
    destruct (IH (S i) cur' env (snd (infer_and_publish url pf i cur env s)))
      as (evs & Htr' & Hread & Hreq).
    exists (call_events url (request_for env pf) ds ++ [EvSetResults cur'] ++ evs)%list.
    rewrite Htr', Htr, <- !app_assoc. split; [reflexivity |].
    destruct (call_events_projections url (request_for env pf) ds) as (_ & Hr0 & _).
    rewrite files_read_app, Hr0, requests_app, requests_call_events. simpl.
    split; [exact Hread |].
    apply Forall_cons. split; [repeat split |].
    apply Forall_app. split; [| exact Hreq].
    apply Forall_replicate. repeat split.
Qed.

(** The events of a run that has passed the pre-run checks, in two
    phases. *)
Lemma run_analysis_phases v files env s :
  exists pre post,
    trace (snd (run_analysis v files env s))
    = (trace s ++ [EvSetLoading true; EvSetError None] ++ pre ++ post
       ++ [EvSetLoading false])%list
    /\ requests pre = [] /\ files_read pre = files
    /\ files_read post = []
    /\ Forall (posted_to (API_URL ++ credential v env)) (requests post).
Proof.
  unfold run_analysis, bind, setLoading, setError, setResults, with_app, emit, ask, bind.
  simpl.
  match goal with
  | |- context [preprocess_all v files env ?s0] =>
      destruct (preprocess_all_run v files env s0)
        as (s1 & Hpre & _ & _ & evs1 & Htr1 & _ & Hs1 & Hr1)
  end.
  simpl in *. rewrite Hpre. simpl.
  match goal with
  | |- context [inference_loop ?url ?pfs 0 ?cur env ?s2] =>
      destruct (inference_loop_trace url pfs 0 cur env s2) as (evs2 & Htr2 & Hr2 & Hq2);
      destruct (inference_loop url pfs 0 cur env s2) as [[c |] s3] eqn:Hloop
  end; simpl in *.
  - eexists evs1, (_ :: evs2). rewrite Htr2, Htr1, <- !app_assoc. simpl.
    split; [reflexivity |].
    rewrite sent_requests in Hs1. apply fmap_nil_inv in Hs1.
    repeat split; assumption.
  - exfalso.
    match type of Hloop with
    | inference_loop ?url ?pfs 0 ?cur env ?s2 = _ =>
        destruct (inference_loop_run url pfs 0 cur env s2) as (? & ? & ? & ? & Hn & _)
    end.
    + intros k pf Hk. rewrite list_lookup_fmap. simpl. rewrite Hk. reflexivity.
    + rewrite Hn in Hloop. discriminate.
Qed.

(** X13. Every request of an invocation is a POST with a JSON content type
    to the model endpoint followed by the credential the variant runs
    with; nothing is ever sent anywhere else. *)
Theorem requests_go_to_the_endpoint v env s :
  Forall (fun q => q.1 = "https://generativelanguage.googleapis.com/v1beta/models/gemini-2.5-flash-preview-09-2025:generateContent?key="
                         ++ credential v env
                   /\ method q.2 = "POST"
                   /\ headers q.2 = [("Content-Type", "application/json")])
    (requests (events_since s (snd (analyzeImages v env s)))).
Proof.
  destruct (analyzeImages_cases v env s) as [(Hrun & _) | [(Hrun & _) | (Hrun & _)]];
    rewrite Hrun.
  - unfold events_since. simpl. rewrite drop_all. constructor.
  - unfold events_since. simpl. rewrite drop_app_length. constructor.
  - destruct (run_analysis_phases v (selectedFiles (app s)) env s)
      as (pre & post & Htr & Hq & _ & _ & Hall).
    rewrite (events_since_app _ _ _ Htr), !requests_app, Hq. simpl.
    rewrite ?app_nil_r. exact Hall.
Qed.

(** X14. In a run that starts, [loading] is set first and reset last, and
    every file is read before the first request is sent: the events split
    into a first part that reads all the selected files, in order, and sends
    nothing, and a second part that reads nothing. *)
Theorem reads_precede_requests v env s :
  selectedFiles (app s) <> [] -> loading (app s) = false ->
  (checks_credential v = true -> credential v env <> "") ->
  exists pre post,
    events_since s (snd (analyzeImages v env s))
    = (EvSetLoading true :: pre ++ post ++ [EvSetLoading false])%list
    /\ requests pre = [] /\ files_read pre = selectedFiles (app s)
    /\ files_read post = [].
Proof.
  intros Hsel Hload Hkey. rewrite (analyzeImages_started v env s Hsel Hload Hkey).
  destruct (run_analysis_phases v (selectedFiles (app s)) env s)
    as (pre & post & Htr & Hq & Hr & Hr' & _).
  exists (EvSetError None :: pre), post.
  rewrite (events_since_app _ _ _ Htr). simpl. repeat split; assumption.
Qed.

Lemma reads_precede_requests_witness :
  let env := sample_env (Some "k") [Resolved (response_200 (JStr "{}"))] [] in
  let s := start (idle [photo "a"; photo "b"]) in
  exists pre post,
    events_since s (snd (analyzeImages PassionMapper env s))
    = (EvSetLoading true :: pre ++ post ++ [EvSetLoading false])%list
    /\ requests pre = [] /\ files_read pre = [photo "a"; photo "b"].
Proof.
  cbv zeta.
  destruct (reads_precede_requests PassionMapper
              (sample_env (Some "k") [Resolved (response_200 (JStr "{}"))] [])
              (start (idle [photo "a"; photo "b"])))
    as (pre & post & H1 & H2 & H3 & _); [discriminate | reflexivity | discriminate |].
  exists pre, post. repeat split; assumption.
Defined.

(** ** One iteration of the inference loop, case by case *)

Lemma first_ok_call url options env s r :
  fetch_reply env (fetches s) = Resolved r -> ok r = true ->
  exponentialBackoffFetch url options default_maxRetries env s
  = (Normal (Some r), after_fetch url options s).
Proof.
  intros Hr Hok. unfold exponentialBackoffFetch, default_maxRetries.
  change (Z.to_nat 3) with 3%nat.
  rewrite attempts_from_S, attempt_body_spec. cbv zeta. rewrite Hr, Hok. reflexivity.
Qed.

(** What an iteration returns is what it publishes and leaves as results. *)
Lemma iteration_publishes url pf i cur env s c :
  fst (infer_and_publish url pf i cur env s) = Normal c ->
  last (trace (snd (infer_and_publish url pf i cur env s))) = Some (EvSetResults c)
  /\ results (app (snd (infer_and_publish url pf i cur env s))) = c.
Proof.
  unfold infer_and_publish, bind.
  destruct (try_catch _ _ env s) as [[c' | e] s1]; simpl; intros H; inversion H; subst.
  split; [apply last_snoc | reflexivity].
Qed.

(** X15. An iteration whose first answer is an ok response with a truthy
    text in its first candidate, which [JSON.parse] accepts, stores the
    parsed value as the item's data with a null error, after a single
    request and no pause, and publishes the list so updated. *)
Theorem iteration_stores_parsed_answer url pf i cur env s r body candidates jsonText d :
  fetch_reply env (fetches s) = Resolved r -> ok r = true ->
  json r = Normal body -> get_prop body "candidates" = Normal candidates ->
  candidate_text candidates = Some jsonText -> truthy jsonText = true ->
  JSON_parse env jsonText = Normal d ->
  let s' := snd (infer_and_publish url pf i cur env s) in
  fst (infer_and_publish url pf i cur env s) = Normal (alter (settle_item d JNull) i cur)
  /\ results (app s') = alter (settle_item d JNull) i cur
  /\ last (trace s') = Some (EvSetResults (alter (settle_item d JNull) i cur))
  /\ fetches s' = S (fetches s)
  /\ sleeps (events_since s s') = [].
Proof.
  intros Hr Hok Hjson Hcand Htext Htruthy Hparse. cbv zeta.
  assert (Hrun : infer_and_publish url pf i cur env s
                 = (Normal (alter (settle_item d JNull) i cur),
                    snd (setResults (alter (settle_item d JNull) i cur) env
                           (after_fetch url (request_for env pf) s)))).
  { unfold infer_and_publish, try_catch, infer_item, bind, ask, lift, ret. simpl.
    rewrite (first_ok_call url _ env s r Hr Hok). simpl. rewrite Hjson. simpl.
    rewrite Hcand. simpl. unfold candidate_text in Htext. rewrite Htext. simpl.
    rewrite Htruthy, Hparse. reflexivity. }
  rewrite Hrun. simpl.
  repeat split; try apply last_snoc.
  unfold events_since. simpl. rewrite <- !app_assoc, drop_app_length. reflexivity.
Qed.

Lemma iteration_stores_parsed_answer_witness :
  let env := sample_env (Some "k") [Resolved (response_200 (JStr "{}"))] [] in
  let pf := preprocessed PassionMapper env (photo "a") 0 0 in
  fst (infer_and_publish "u" pf 0 [initial_result pf] env (start (idle [photo "a"])))
  = Normal [settle_item (JObj []) JNull (initial_result pf)].
Proof.
  cbv zeta.
  destruct (iteration_stores_parsed_answer "u"
              (preprocessed PassionMapper
                 (sample_env (Some "k") [Resolved (response_200 (JStr "{}"))] [])
                 (photo "a") 0 0)
              0
              [initial_result
                 (preprocessed PassionMapper
                    (sample_env (Some "k") [Resolved (response_200 (JStr "{}"))] [])
                    (photo "a") 0 0)]
              (sample_env (Some "k") [Resolved (response_200 (JStr "{}"))] [])
              (start (idle [photo "a"])) (response_200 (JStr "{}"))
              (candidate_body (JStr "{}"))
              (Some (JArr [JObj [("content",
                                  JObj [("parts", JArr [JObj [("text", JStr "{}")]])])]]))
              (JStr "{}") (JObj [])) as [H _]; [reflexivity .. | exact H].
Defined.

Lemma status_error_message r fallback :
  message_or (status_error r) fallback
  = "API call failed with status: " ++ number_to_string (status r) ++ " " ++ statusText r.
Proof. reflexivity. Qed.

(** X16. An iteration whose three attempts all fail marks the item with
    the message of the last failure and null data.  When that failure is a
    non-ok response the message is the status line of that response; its
    body is never read, so an error message sent in the body of a non-ok
    response is not shown. *)
Theorem iteration_reports_last_failure url pf i cur env s e :
  (forall j, (j < 3)%nat -> failure_of (fetch_reply env (fetches s + j)) <> None) ->
  failure_of (fetch_reply env (fetches s + 2)) = Some e ->
  fst (infer_and_publish url pf i cur env s)
  = Normal (alter (settle_item JNull (JStr (message_or e "File processing failed"))) i cur)
  /\ (forall r, fetch_reply env (fetches s + 2) = Resolved r ->
        message_or e "File processing failed"
        = "API call failed with status: " ++ number_to_string (status r) ++ " "
          ++ statusText r).
Proof.
  intros Hfail He. split.
  - destruct (attempts_from_all_fail 3 url (request_for env pf) default_maxRetries env 0 s)
      as (e' & He' & Hfst & _); [reflexivity | lia | exact Hfail |].
    simpl in He'. assert (e' = e) by congruence. subst e'.
    unfold infer_and_publish, try_catch, infer_item, bind, ask, lift, ret. simpl.
    unfold exponentialBackoffFetch. change (Z.to_nat default_maxRetries) with 3%nat.
    destruct (attempts_from 3 url (request_for env pf) 0 default_maxRetries env s)
      as [c s1]. simpl in Hfst. subst c. reflexivity.
  - intros r Hr. rewrite Hr in He. simpl in He.
    destruct (ok r); [discriminate |]. inversion He. apply status_error_message.
Qed.

Lemma iteration_reports_last_failure_witness :
  let env := sample_env (Some "k")
               [Resolved response_429; Rejected network_error;
                Resolved (respond 400 "Bad Request"
                            (Normal (JObj [("error", JObj [("message", JStr "bad image")])])))]
               [] in
  let pf := preprocessed PassionMapper env (photo "a") 0 0 in
  fst (infer_and_publish "u" pf 0 [initial_result pf] env (start (idle [photo "a"])))
  = Normal [settle_item JNull (JStr "API call failed with status: 400 Bad Request")
              (initial_result pf)].
Proof.
  cbv zeta.
  destruct (iteration_reports_last_failure "u"
              (preprocessed PassionMapper
                 (sample_env (Some "k")
                    [Resolved response_429; Rejected network_error;
                     Resolved (respond 400 "Bad Request"
                                 (Normal (JObj [("error",
                                                 JObj [("message", JStr "bad image")])])))] [])
                 (photo "a") 0 0)
              0 [initial_result (preprocessed PassionMapper
                 (sample_env (Some "k")
                    [Resolved response_429; Rejected network_error;
                     Resolved (respond 400 "Bad Request"
                                 (Normal (JObj [("error",
                                                 JObj [("message", JStr "bad image")])])))] [])
                 (photo "a") 0 0)]
              (sample_env (Some "k")
                 [Resolved response_429; Rejected network_error;
                  Resolved (respond 400 "Bad Request"
                              (Normal (JObj [("error",
                                              JObj [("message", JStr "bad image")])])))] [])
              (start (idle [photo "a"]))
              (status_error (respond 400 "Bad Request"
                               (Normal (JObj [("error",
                                               JObj [("message", JStr "bad image")])])))))
    as [H _].
  - intros [| [| [| j]]] Hj; simpl; discriminate.
  - reflexivity.
  - exact H.
Defined.

(** X17. An iteration whose first answer is an ok response without a
    truthy candidate text marks the item with an error and null data: the
    [message] of the body's [error] if it is truthy, otherwise the [message]
    of the first of its [details] if that is truthy, otherwise the fixed
    text. *)
Theorem iteration_reports_missing_text url pf i cur env s r body candidates err :
  fetch_reply env (fetches s) = Resolved r -> ok r = true ->
  json r = Normal body -> get_prop body "candidates" = Normal candidates ->
  truthy_opt (candidate_text candidates) = false ->
  get_prop body "error" = Normal err ->
  exists msg,
    fst (infer_and_publish url pf i cur env s)
    = Normal (alter (settle_item JNull msg) i cur)
    /\ truthy msg = true
    /\ (forall m, get_prop_opt err "message" = Some m -> truthy m = true -> msg = m)
    /\ (forall m, truthy_opt (get_prop_opt err "message") = false ->
          get_prop_opt (get_first_opt (get_prop_opt err "details")) "message" = Some m ->
          truthy m = true -> msg = m)
    /\ (truthy_opt (get_prop_opt err "message") = false ->
        truthy_opt (get_prop_opt (get_first_opt (get_prop_opt err "details")) "message")
        = false ->
        msg = JStr "Model response was empty or malformed.").
Proof.
  intros Hr Hok Hjson Hcand Htext Herr.
  exists (error_message_of err). split; [| split; [apply error_message_of_truthy |]].
  - unfold infer_and_publish, try_catch, infer_item, bind, ask, lift, ret. simpl.
    rewrite (first_ok_call url _ env s r Hr Hok). simpl. rewrite Hjson. simpl.
    rewrite Hcand. simpl. unfold candidate_text in Htext. rewrite Htext. simpl.
    rewrite Herr. reflexivity.
  - unfold error_message_of, or_else, or_opt. repeat split.
    + intros m Hm Ht. rewrite Hm. simpl. rewrite Ht, Ht. reflexivity.
    + intros m Hno Hm Ht. rewrite Hno, Hm, Ht. reflexivity.
    + intros Hno Hno'. rewrite Hno.
      destruct (get_prop_opt (get_first_opt (get_prop_opt err "details")) "message")
        as [m |]; [simpl in Hno'; rewrite Hno' |]; reflexivity.
Qed.

Lemma iteration_reports_missing_text_witness :
  let body := JObj [("error", JObj [("message", JStr "");
                                    ("details", JArr [JObj [("message", JStr "quota")]])])] in
  let env := sample_env (Some "k") [Resolved (respond 200 "OK" (Normal body))] [] in
  let pf := preprocessed PassionMapper env (photo "a") 0 0 in
  fst (infer_and_publish "u" pf 0 [initial_result pf] env (start (idle [photo "a"])))
  = Normal [settle_item JNull (JStr "quota") (initial_result pf)].
Proof.
  cbv zeta.
  destruct (iteration_reports_missing_text "u"
              (preprocessed PassionMapper
                 (sample_env (Some "k")
                    [Resolved (respond 200 "OK"
                       (Normal (JObj [("error",
                          JObj [("message", JStr "");
                                ("details", JArr [JObj [("message", JStr "quota")]])])])))] [])
                 (photo "a") 0 0)
              0
              [initial_result (preprocessed PassionMapper
                 (sample_env (Some "k")
                    [Resolved (respond 200 "OK"
                       (Normal (JObj [("error",
                          JObj [("message", JStr "");
                                ("details", JArr [JObj [("message", JStr "quota")]])])])))] [])
                 (photo "a") 0 0)]
              (sample_env (Some "k")
                 [Resolved (respond 200 "OK"
                    (Normal (JObj [("error",
                       JObj [("message", JStr "");
                             ("details", JArr [JObj [("message", JStr "quota")]])])])))] [])
              (start (idle [photo "a"]))
              (respond 200 "OK"
                 (Normal (JObj [("error",
                    JObj [("message", JStr "");
                          ("details", JArr [JObj [("message", JStr "quota")]])])])))
              (JObj [("error",
                      JObj [("message", JStr "");
                            ("details", JArr [JObj [("message", JStr "quota")]])])])
              None
              (Some (JObj [("message", JStr "");
                           ("details", JArr [JObj [("message", JStr "quota")]])])))
    as (msg & Hfst & _ & _ & Hdetails & _); [reflexivity .. |].
  rewrite Hfst, (Hdetails (JStr "quota")); reflexivity.
Defined.

(** X18. An iteration whose first answer is an ok response never throws
    when the body cannot be read or parsed: if [response.json()] rejects,
    or [JSON.parse] throws on the candidate text, the item is marked with
    the message of that exception ([File processing failed] when it has
    none) and null data. *)
Theorem iteration_reports_unreadable_answer url pf i cur env s r x :
  fetch_reply env (fetches s) = Resolved r -> ok r = true ->
  (json r = Abrupt x
   \/ exists body candidates,
        json r = Normal body /\ get_prop body "candidates" = Normal candidates
        /\ truthy_opt (candidate_text candidates) = true
        /\ JSON_parse env (default JNull (candidate_text candidates)) = Abrupt x) ->
  fst (infer_and_publish url pf i cur env s)
  = Normal (alter (settle_item JNull (JStr (message_or x "File processing failed"))) i cur).
Proof.
  intros Hr Hok Hcase.
  unfold infer_and_publish, try_catch, infer_item, bind, ask, lift, ret. simpl.
  rewrite (first_ok_call url _ env s r Hr Hok). simpl.
  destruct Hcase as [Hjson | (body & candidates & Hjson & Hcand & Htext & Hparse)];
    rewrite Hjson; simpl; [reflexivity |].
  rewrite Hcand. simpl. unfold candidate_text in Htext, Hparse. rewrite Htext. simpl.
  rewrite Hparse. reflexivity.
Qed.

Lemma iteration_reports_unreadable_answer_witness :
  let env := sample_env (Some "k") [Resolved (response_200 (JStr "{oops"))] [] in
  let pf := preprocessed PassionMapper env (photo "a") 0 0 in
  fst (infer_and_publish "u" pf 0 [initial_result pf] env (start (idle [photo "a"])))
  = Normal [settle_item JNull (JStr "Unexpected token") (initial_result pf)].
Proof.
  intros env pf.
  apply (iteration_reports_unreadable_answer "u" pf 0 [initial_result pf] env
           (start (idle [photo "a"])) (response_200 (JStr "{oops"))
           (Error "Unexpected token")); [reflexivity | reflexivity |].
  right. eexists _, _. repeat split; reflexivity.
Defined.

(** ** Preprocessing, variant by variant *)

Lemma preprocessed_error_iff v env f k x :
  has_error (preprocessed v env f k x) = true <->
  (exists e, FileReader_result env k = Abrupt e)
  \/ (v = PassionMapper
      /\ exists lat lng,
           GPSLatitude (tags_or_empty (ExifReader_load env x)) = Some lat
           /\ GPSLongitude (tags_or_empty (ExifReader_load env x)) = Some lng
           /\ is_number lat && is_number lng = false).
Proof.
  destruct (FileReader_result env k) as [b | e] eqn:Hread.
  2: { rewrite (unreadable_has_error v env f k x e Hread), preprocessing_failed_has_error.
       split; [intros _; left; eauto | reflexivity]. }
  unfold preprocessed, preprocess, try_catch, bind, settled, toBase64,
    ExifReader_load_file, lift, ask, ret, probe.
  destruct v; simpl; rewrite Hread; simpl.
  - replace (match ExifReader_load env x with
             | Normal a => (Normal a, _)
             | Abrupt _ => _
             end) with
      (Normal (tags_or_empty (ExifReader_load env x)),
       {| app := idle []; fetches := 0; randoms := 0; reads := S k; exifs := S x;
          trace := [EvRead f; EvExif f] |})
      by (destruct (ExifReader_load env x); reflexivity).
    simpl. generalize (tags_or_empty (ExifReader_load env x)). intros t.
    unfold exif_metadata.
    destruct (GPSLatitude t) as [lat |], (GPSLongitude t) as [lng |]; simpl;
      try (split; [discriminate | intros [(e & He) | (_ & la & ln & H1 & H2 & _)]; discriminate]).
    destruct lat, lng; simpl; rewrite ?preprocessing_failed_has_error;
      try (split; [intros _; right; split; [reflexivity |]; eexists _, _; repeat split
                  | reflexivity]).
    split; [discriminate |].
    intros [(e & He) | (_ & la & ln & H1 & H2 & H3)]; [discriminate |].
    inversion H1; inversion H2; subst. discriminate.
  - destruct (lastModified f =? 0)%Z; simpl;
      (split; [discriminate | intros [(e & He) | (Hv & _)]; discriminate]).
  - split; [discriminate | intros [(e & He) | (Hv & _)]; discriminate].
Qed.

(** X19. Preprocessing a file never throws and yields an item for that
    file.  The item carries an error exactly when the file cannot be read
    or, in the first variant, when both GPS tags are present and the
    description of one of them is not a number; a failed EXIF load is not a
    failure.  An item with an error has [null] bytes and no metadata; an
    item without error has, as bytes, what [toBase64] resolved with for the
    reader's result: the part between its first comma and the next one (or
    the end), or [undefined] when the result holds no comma. *)
Theorem preprocessing_fails_exactly_when v f env s :
  let tags := tags_or_empty (ExifReader_load env (exifs s)) in
  exists pf,
    fst (preprocess v f env s) = Normal pf
    /\ pf_file pf = f
    /\ (has_error pf = true <->
        (exists e, FileReader_result env (reads s) = Abrupt e)
        \/ (v = PassionMapper
            /\ exists lat lng, GPSLatitude tags = Some lat /\ GPSLongitude tags = Some lng
                               /\ is_number lat && is_number lng = false))
    /\ (has_error pf = true -> base64Data pf = Null /\ pf_metadata pf = None)
    /\ (has_error pf = false ->
        exists result,
          FileReader_result env (reads s) = Normal result
          /\ match dataUrl_payload result with
             | Some b => base64Data pf = Encoded b
             | None => base64Data pf = Undefined
             end).
Proof.
  cbv zeta. rewrite preprocess_run. eexists. split; [reflexivity |].
  split; [apply preprocessed_file |].
  split; [apply preprocessed_error_iff |].
  destruct (preprocessed_cases v env f (reads s) (exifs s))
    as [(e & ->) | (Hnone & b & Hb & Hdata)].
  - rewrite preprocessing_failed_has_error. split; [split; reflexivity | discriminate].
  - unfold has_error. rewrite Hnone. split; [discriminate |].
    intros _. exists b. split; [exact Hb |]. rewrite Hdata.
    destruct (dataUrl_payload b); reflexivity.
Qed.

(** X20. In the first variant a photo whose bytes are read but whose EXIF
    data cannot be loaded (or holds none of the four tags) is preprocessed
    without error: it keeps the bytes [toBase64] resolved with, gets empty
    metadata and the context [No additional metadata available.] *)
Theorem exif_failure_is_tolerated f env s result :
  FileReader_result env (reads s) = Normal result ->
  tags_or_empty (ExifReader_load env (exifs s)) = no_tags ->
  fst (preprocess PassionMapper f env s)
  = Normal {| pf_file := f;
              base64Data := match dataUrl_payload result with
                            | Some b => Encoded b
                            | None => Undefined
                            end;
              pf_metadata := Some {| date := None; camera := None; location := None |};
              metadataContext := Some "No additional metadata available.";
              pf_error := None |}.
Proof.
  intros Hread Htags.
  unfold preprocess, try_catch, bind, settled, toBase64, ExifReader_load_file, lift, ask, ret.
  simpl. rewrite Hread.
  destruct (ExifReader_load env (exifs s)) as [t | e]; simpl in *;
    [rewrite Htags |]; reflexivity.
Qed.

Lemma exif_failure_is_tolerated_witness :
  let env := sample_exif_env (Abrupt (Error "Invalid image format")) in
  fst (preprocess PassionMapper (photo "a") env (start (idle [])))
  = Normal {| pf_file := photo "a"; base64Data := Encoded "aGVsbG8=";
              pf_metadata := Some {| date := None; camera := None; location := None |};
              metadataContext := Some "No additional metadata available.";
              pf_error := None |}.
Proof.
  intros env.
  apply (exif_failure_is_tolerated (photo "a") env (start (idle []))
           "data:image/png;base64,aGVsbG8="); reflexivity.
Defined.

(** X21. In the first variant, for a photo preprocessed without error: the
    location is recorded exactly when both GPS tags are present, and the
    metadata context is the text [No additional metadata available.]
    exactly when the date and the camera are missing or falsy and the GPS
    tags are not both present. *)
Theorem metadata_context_default_iff f env s pf :
  fst (preprocess PassionMapper f env s) = Normal pf -> has_error pf = false ->
  let tags := tags_or_empty (ExifReader_load env (exifs s)) in
  ((exists m, pf_metadata pf = Some m
              /\ (location m <> None <->
                  GPSLatitude tags <> None /\ GPSLongitude tags <> None)))
  /\ (metadataContext pf = Some "No additional metadata available." <->
      truthy_opt (DateTimeOriginal tags) = false /\ truthy_opt (Model tags) = false
      /\ (GPSLatitude tags = None \/ GPSLongitude tags = None)).
Proof.
  intros Hrun Herr. cbv zeta.
  unfold preprocess, try_catch, bind, settled, toBase64, ExifReader_load_file, lift, ask, ret
    in Hrun. simpl in Hrun.
  assert (Hpf : exists b,
             match exif_metadata env f b (tags_or_empty (ExifReader_load env (exifs s))) with
             | Normal p => p = pf
             | Abrupt e => preprocessing_failed f e = pf
             end \/ exists e, preprocessing_failed f e = pf).
  { destruct (ExifReader_load env (exifs s)) as [t | e0]; simpl in *;
      destruct (FileReader_result env (reads s)) as [b | e]; simpl in Hrun.
    - exists (dataUrl_payload b). left.
      destruct (exif_metadata env f (dataUrl_payload b) t); simpl in Hrun; congruence.
    - exists None. right. exists e. congruence.
    - exists (dataUrl_payload b). left.
      destruct (exif_metadata env f (dataUrl_payload b) no_tags); simpl in Hrun; congruence.
    - exists None. right. exists e. congruence. }
  destruct Hpf as (b & [Hpf | (e & Hpf)]).
  2: { subst pf. rewrite preprocessing_failed_has_error in Herr. discriminate. }
  generalize dependent (tags_or_empty (ExifReader_load env (exifs s))). intros t Hpf.
  unfold exif_metadata in Hpf.
  destruct (GPSLatitude t) as [lat |], (GPSLongitude t) as [lng |].
  - destruct (toFixed env lat) as [slat | e];
      [destruct (toFixed env lng) as [slng | e] |];
      try (subst pf; rewrite preprocessing_failed_has_error in Herr; discriminate).
    subst pf. simpl. split.
    + eexists. split; [reflexivity |]. simpl. split; [split |]; discriminate.
    + split; [discriminate | intros (_ & _ & [H | H]); discriminate].
  - subst pf. simpl. split.
    + eexists. split; [reflexivity |]. simpl.
      split; [intros H; contradiction | intros [_ H]; contradiction].
    + destruct (truthy_opt (DateTimeOriginal t)), (truthy_opt (Model t)); simpl;
        (split; [try discriminate; auto | intros (H1 & H2 & _); try discriminate; reflexivity]).
  - subst pf. simpl. split.
    + eexists. split; [reflexivity |]. simpl.
      split; [intros H; contradiction | intros [H _]; contradiction].
    + destruct (truthy_opt (DateTimeOriginal t)), (truthy_opt (Model t)); simpl;
        (split; [try discriminate; auto | intros (H1 & H2 & _); try discriminate; reflexivity]).
  - subst pf. simpl. split.
    + eexists. split; [reflexivity |]. simpl.
      split; [intros H; contradiction | intros [H _]; contradiction].
    + destruct (truthy_opt (DateTimeOriginal t)), (truthy_opt (Model t)); simpl;
        (split; [try discriminate; auto | intros (H1 & H2 & _); try discriminate; reflexivity]).
Qed.

Lemma metadata_context_default_iff_witness :
  let tags := {| DateTimeOriginal := Some (JStr "2024:01:01 10:00:00"); Model := None;
                 GPSLatitude := Some (JNum (257617 # 10000));
                 GPSLongitude := Some (JNum (-801918 # 10000)) |} in
  let env := sample_exif_env (Normal tags) in
  let pf := preprocessed PassionMapper env (photo "a") 0 0 in
  metadataContext pf
  = Some "Use the following metadata to improve the analysis: Date taken: 2024:01:01 10:00:00; Location: (25.761700, 25.761700)"
  /\ (metadataContext pf = Some "No additional metadata available." <->
      truthy_opt (DateTimeOriginal tags) = false /\ truthy_opt (Model tags) = false
      /\ (GPSLatitude tags = None \/ GPSLongitude tags = None)).
Proof.
  intros tags env pf. split; [reflexivity |].
  destruct (metadata_context_default_iff (photo "a") env (start (idle [])) pf)
    as [_ H]; [reflexivity | reflexivity | exact H].
Defined.

(** ** The render *)

Lemma numProcessed_alter d e : forall P j r,
  P !! j = Some r -> processing r = true ->
  (numProcessed P <= numProcessed (alter (settle_item d e) j P))%nat.
Proof.
  unfold numProcessed.
  induction P as [| x P IH]; intros j r Hj Hproc; [discriminate |].
  destruct j as [| j].
  - simpl in *. inversion Hj; subst x. unfold card_shown at 1. rewrite Hproc. simpl.
    destruct (card_shown (settle_item d e r)); simpl; lia.
  - specialize (IH j r Hj Hproc).
    change (alter (settle_item d e) (S j) (x :: P)) with (x :: alter (settle_item d e) j P).
    simpl. destruct (card_shown x); simpl; lia.
Qed.

Lemma numProcessed_le_length P : (numProcessed P <= length P)%nat.
Proof.
  unfold numProcessed. induction P as [| x P IH]; simpl; [lia |].
  destruct (card_shown x); simpl; lia.
Qed.

(** X22. During an invocation the number of result cards (the count the
    progress text is computed from) never decreases from one published list
    to the next and never exceeds the number of selected files. *)
Theorem progress_never_goes_back v env s :
  let pubs := published (events_since s (snd (analyzeImages v env s))) in
  forall k P P',
    pubs !! k = Some P -> pubs !! S k = Some P' ->
    (numProcessed P <= numProcessed P' <= length (selectedFiles (app s)))%nat.
Proof.
  cbv zeta.
  destruct (analyzeImages_cases v env s)
    as [(Hrun & _) | [(Hrun & _) | (_ & Hsel & Hload & Hkey)]].
  - destruct (not_started_events v env s (or_introl Hrun)) as (_ & -> & _).
    intros k P P' HP. destruct k; discriminate.
  - destruct (not_started_events v env s (or_intror Hrun)) as (_ & -> & _).
    intros k P P' HP. destruct k; discriminate.
  - destruct (started_run v env s Hsel Hload Hkey)
      as (pubs & counts & _ & Hchain & Hpub & _).
    rewrite Hpub. intros k P P' HP HP'. split.
    + destruct (chain_lookup (settles env) pubs _ k P P' Hchain HP HP')
        as [j r k0 d e Hj Hproc _ ->].
      exact (numProcessed_alter d e P j r Hj Hproc).
    + assert (Hin : P' ∈ map initial_result
                      (preprocessed_from v env (selectedFiles (app s)) (reads s) (exifs s))
                    :: pubs).
      { apply list_elem_of_lookup. exists (S k). exact HP'. }
      rewrite <- (started_run_files v env s pubs P' Hchain Hin), length_map.
      apply numProcessed_le_length.
Qed.

Lemma progress_never_goes_back_witness :
  let env := sample_env (Some "k")
               [Resolved (response_200 (JStr "null")); Resolved (response_200 (JStr "{}"))]
               [] in
  let s := start (idle [photo "a"; photo "b"]) in
  map numProcessed (published (events_since s (snd (analyzeImages PassionMapper env s))))
  = [0; 0; 1]%nat
  /\ (0 <= 1 <= 2)%nat.
Proof.
  intros env s. split; [vm_compute; reflexivity |].
  pose proof (progress_never_goes_back PassionMapper env s) as H. cbv zeta in H.
  assert (Hpubs : exists P P', published (events_since s (snd (analyzeImages PassionMapper env s))) !! 1%nat = Some P
                   /\ published (events_since s (snd (analyzeImages PassionMapper env s))) !! 2%nat = Some P'
                   /\ numProcessed P = 0%nat /\ numProcessed P' = 1%nat).
  { eexists _, _. repeat split; vm_compute; reflexivity. }
  destruct Hpubs as (P & P' & H1 & H2 & H3 & H4).
  specialize (H 1%nat P P' H1 H2). rewrite H3, H4 in H. exact H.
Defined.

(** ** The base64 payload of a data URL *)

Lemma split_on_no_sep sep s : has_char sep s = false -> split_on sep s = [s].
Proof.
  induction s as [| c s IH]; simpl; [reflexivity |].
  intros H. apply orb_false_elim in H as [Hc Hs].
  rewrite Hc, (IH Hs). reflexivity.
Qed.

Lemma split_on_first sep header rest :
  has_char sep header = false ->
  split_on sep (header ++ String sep rest) = header :: split_on sep rest.
Proof.
  induction header as [| c h IH]; simpl.
  - intros _. rewrite Ascii.eqb_refl. reflexivity.
  - intros H. apply orb_false_elim in H as [Hc Hh].
    rewrite Hc, (IH Hh). reflexivity.
Qed.

(** X23. [toBase64] resolves with what follows the first comma of the data
    URL, up to the next comma: for a URL made of a header without comma, a
    comma and a payload without comma (base64 has none) it is the payload;
    for a result without any comma it is [undefined]. *)
Theorem dataUrl_payload_extracts header payload :
  has_char comma header = false ->
  (has_char comma payload = false ->
   dataUrl_payload (header ++ String comma payload) = Some payload)
  /\ dataUrl_payload header = None.
Proof.
  intros Hh. unfold dataUrl_payload. split.
  - intros Hp. rewrite (split_on_first comma header payload Hh),
      (split_on_no_sep comma payload Hp). reflexivity.
  - rewrite (split_on_no_sep comma header Hh). reflexivity.
Qed.

Lemma dataUrl_payload_extracts_witness :
  dataUrl_payload "data:image/png;base64,aGVsbG8=" = Some "aGVsbG8="
  /\ dataUrl_payload "data:" = None.
Proof.
  split.
  - apply (dataUrl_payload_extracts "data:image/png;base64" "aGVsbG8="); reflexivity.
  - apply (dataUrl_payload_extracts "data:" ""). reflexivity.
Defined.
